(** * The DEP enrollment pipeline of [DEP Enrollment/Enrollment.py]

    A shallow embedding of the [__main__] block of the enrollment script: the
    [while argv[6] != "exit"] loop that walks the stages [computer],
    [remotemanagement], [settings], [createmanifest], [beautifyadmin],
    [directorybinding], [munki] and [sysprefs], either all in a row
    ([argv[4] == "DEP"]) or one at a time.

    The functions the loop calls ([set_computer_name], [harden_ard], ...)
    change the machine, not the interpreter: none of them assigns a module
    global or an element of [argv].  Each call is therefore an oracle query
    whose answer is either a returned value or a raised exception, and the
    Python-level state ([argv], the module globals, and the trace of what
    the loop did) is threaded explicitly through the loop.

    The semantics is that of Python 3, which the script is tested with: a
    name bound by [except ... as error] is unbound when the handler is left.
    [print] is taken to succeed always. *)

From stdpp Require Import gmap strings list.

(** ** Python values and exceptions *)

(** The exception classes that matter for the handlers of the loop.  All of
    them derive from [Exception] except [KeyboardInterrupt] and [SystemExit],
    which derive from [BaseException] only. *)
Inductive exn_class : Set :=
  | CalledProcessError
  | FileNotFoundError
  | IndexError
  | NameError
  | AttributeError
  | ValueError
  | KeyError
  | RuntimeError
  | KeyboardInterrupt
  | SystemExit.

(** An exception object: its class and [str(error)]. *)
Record pyexn : Set := PyExn { exn_cls : exn_class; exn_text : string }.

(** [isinstance(e, Exception)], the test of [except Exception]. *)
Definition isinstance_Exception (e : pyexn) : bool :=
  match exn_cls e with
  | KeyboardInterrupt | SystemExit => false
  | _ => true
  end.

(** [isinstance(e, CalledProcessError)], the test of
    [except CalledProcessError]. *)
Definition isinstance_CalledProcessError (e : pyexn) : bool :=
  match exn_cls e with
  | CalledProcessError => true
  | _ => false
  end.

(** The values bound to module globals. *)
Inductive pyval : Type :=
  | VNone
  | VStr (s : string)
  | VStrList (l : list string)
  | VDict (d : list (string * list (string * string)))
  | VForeign (handle : string)
  | VExn (e : pyexn).

(** ** Operations, events and the interpreter state *)

(** The calls the loop makes.  The first eight and the last three are
    functions of the script (or, for [jamf_policy], the
    [check_output(['/usr/local/bin/jamf', 'policy', '-event', 'fixEADBinding'])]
    written inline in the [directorybinding] branch); the others are the
    library calls written inline in the [sysprefs] branch. *)
Inductive op : Set :=
  | set_computer_name
  | harden_ard
  | harden_ssh
  | settings_setup
  | create_munki_manifest
  | beautify_admin_accounts
  | jamf_policy
  | munki_download_and_install
  | mac_ver                     (* mac_ver()[0] *)
  | StrictVersion               (* version.StrictVersion(macOS_version) *)
  | CDLL_Security               (* CDLL(find_library("Security")) *)
  | Security_getattr (name : string)
  | power_prefs
  | location_services
  | autotimezone.

(** What the loop does that can be observed: the calls it makes and the
    lines it prints itself, in the order they happen. *)
Inductive event : Type :=
  | Call (o : op)
  | Print (line : string).

#[global] Instance op_eq_dec : EqDecision op.
Proof. solve_decision. Defined.

#[global] Instance event_eq_dec : EqDecision event.
Proof. solve_decision. Defined.

(** The answer of a call. *)
Inductive answer : Type :=
  | Returns (v : pyval)
  | Raises (e : pyexn).

(** The machine the script runs on: what a call answers, given everything
    the loop has done so far. *)
Definition world : Type := list event → op → answer.

(** The state of the interpreter the loop can read or write: [sys.argv],
    the module globals, and the trace of what the loop has done. *)
Record state : Type := State {
  argv : list string;
  globals : gmap string pyval;
  trace : list event
}.

(** ** A state-and-exception monad

    A raised exception keeps the state reached when it was raised, as in
    Python. *)
Inductive res (A : Type) : Type :=
  | Ok (a : A)
  | Exc (e : pyexn).
Arguments Ok {A} a.
Arguments Exc {A} e.

(** A computation: from a state to a result or an exception, and the
    state reached. *)
Definition M (A : Type) : Type := state → res A * state.

Definition ret {A} (a : A) : M A := λ st, (Ok a, st).

(** Sequencing: an exception of the first computation skips the second. *)
Definition bind {A B} (m : M A) (k : A → M B) : M B :=
  λ st, match m st with
        | (Ok a, st') => k a st'
        | (Exc e, st') => (Exc e, st')
        end.

Declare Scope py_scope.
Delimit Scope py_scope with py.
Notation "'let*' x := m 'in' k" := (bind m (λ x, k))
  (at level 10, x name, m at level 100, k at level 200) : py_scope.
Notation "m ;;; k" := (bind m (λ _, k))
  (at level 100, k at level 200, right associativity) : py_scope.
Open Scope py_scope.

(** [try: body except <class> ...: handler]: the handler runs only for an
    exception the clause matches; any other exception goes on. *)
Definition try_except {A} (body : M A) (matches : pyexn → bool)
    (handler : pyexn → M A) : M A :=
  λ st, match body st with
        | (Ok a, st') => (Ok a, st')
        | (Exc e, st') => if matches e then handler e st' else (Exc e, st')
        end.

(** [argv[i]]: an [IndexError] out of range. *)
Definition get_argv (i : nat) : M string :=
  λ st, match argv st !! i with
        | Some s => (Ok s, st)
        | None => (Exc (PyExn IndexError "list index out of range"), st)
        end.

(** [argv[i] = s]: an [IndexError] out of range (stdpp's insert alone would
    do nothing there). *)
Definition set_argv (i : nat) (s : string) : M unit :=
  λ st, if decide (i < length (argv st))
        then (Ok (), State (<[i := s]> (argv st)) (globals st) (trace st))
        else (Exc (PyExn IndexError "list assignment index out of range"), st).

(** [argv[i] == s] *)
Definition argv_is (i : nat) (s : string) : M bool :=
  let* v := get_argv i in ret (String.eqb v s).

(** Reading a module global: a [NameError] when it is not bound. *)
Definition get_global (x : string) : M pyval :=
  λ st, match globals st !! x with
        | Some v => (Ok v, st)
        | None => (Exc (PyExn NameError ("name '" +:+ x +:+ "' is not defined")), st)
        end.

(** [x = v] at module level. *)
Definition set_global (x : string) (v : pyval) : M unit :=
  λ st, (Ok (), State (argv st) (<[x := v]> (globals st)) (trace st)).

(** [del x] for a bound [x]. *)
Definition del_global (x : string) : M unit :=
  λ st, (Ok (), State (argv st) (delete x (globals st)) (trace st)).

(** Appends an event to the trace. *)
Definition emit (ev : event) : M unit :=
  λ st, (Ok (), State (argv st) (globals st) (trace st ++ [ev])).

(** [print(line, end='\n')] *)
Definition print (line : string) : M unit := emit (Print line).

(** [except ... as error: handler]: Python 3 binds the name for the handler
    and unbinds it when the handler is left. *)
Definition as_error {A} (e : pyexn) (handler : M A) : M A :=
  set_global "error" (VExn e) ;;;
  let* a := handler in
  del_global "error" ;;;
  ret a.

(** The line every branch but the last prints when its [try] body ends. *)
Definition completed : string := "  ✓ Completed".

(** The panes the [sysprefs] branch asks [power_prefs] to unlock. *)
Definition system_prefs_to_change : pyval :=
  VStrList ["system.preferences";
            "system.preferences.datetime";
            "system.preferences.timemachine";
            "system.preferences.energysaver";
            "system.preferences.network"].

(** How a run ends: the loop condition became false, an exception left
    the loop, or the fuel of the model ran out with the loop still going. *)
Inductive run_result : Type :=
  | Exited (st : state)
  | Crashed (e : pyexn) (st : state)
  | OutOfFuel (st : state).

Section WithWorld.
Context (w : world).

(** A call: it is recorded, then it answers as the world says. *)
Definition call (o : op) : M pyval :=
  λ st, let st' := State (argv st) (globals st) (trace st ++ [Call o]) in
        match w (trace st) o with
        | Returns v => (Ok v, st')
        | Raises e => (Exc e, st')
        end.

(** The conditional that ends every branch but the last:
    [if argv[4] == "DEP": argv[5] = next  else: argv[6] = "exit"]. *)
Definition advance (next : string) : M unit :=
  let* dep := argv_is 4 "DEP" in
  if dep then set_argv 5 next else set_argv 6 "exit".

(** The branches of the [if]/[elif] chain, in the order of the script
    (lines 556-677).  The first four handlers are written
    [except Exception:], the others bind the exception [as error]; the
    [directorybinding] branch alone has [except CalledProcessError]. *)

Definition branch_computer : M unit :=
  try_except
    (call set_computer_name ;;; print completed)
    isinstance_Exception
    (λ _, print "  ✖ Unable to set computer name") ;;;
  advance "remotemanagement".

Definition branch_remotemanagement : M unit :=
  try_except
    (call harden_ard ;;;
     get_global "local_node" ;;;
     call harden_ssh ;;;
     print completed)
    isinstance_Exception
    (λ _, print "  ✖ Unable to Harden Remote Management properly") ;;;
  advance "settings".

Definition branch_settings : M unit :=
  try_except
    (call settings_setup ;;; print completed)
    isinstance_Exception
    (λ _, print "  ✖ Unable to set settings for NTP Serverand Set Computer Name Daemon") ;;;
  advance "createmanifest".

Definition branch_createmanifest : M unit :=
  try_except
    (call create_munki_manifest ;;; print completed)
    isinstance_Exception
    (λ _, print "  ✖ Unable to create a munki manifest") ;;;
  advance "beautifyadmin".

Definition branch_beautifyadmin : M unit :=
  try_except
    (call beautify_admin_accounts ;;; print completed)
    isinstance_Exception
    (λ e, as_error e
            (print (exn_text e) ;;;
             print "  ✖ Unable to add flair to the admin accounts.")) ;;;
  advance "directorybinding".

Definition branch_directorybinding : M unit :=
  print "• Bind to EAD" ;;;
  try_except
    (call jamf_policy ;;; print completed)
    isinstance_CalledProcessError
    (λ e, as_error e
            (print "  ✖ Unable to bind to Enterprise Active Directory")) ;;;
  advance "munki".

Definition branch_munki : M unit :=
  try_except
    (call munki_download_and_install ;;; print completed)
    isinstance_Exception
    (λ e, as_error e
            (print "  ✖ Unable to install munki and trigger bootstrap")) ;;;
  advance "sysprefs".

(** The last branch builds what [power_prefs] needs inside its [try],
    binding module globals on the way, calls [location_services] and
    [autotimezone] after the [try], and sets [argv[6]] whatever the mode. *)
Definition branch_sysprefs : M unit :=
  try_except
    ((let* v := call mac_ver in set_global "macOS_version" v) ;;;
     get_global "macOS_version" ;;;
     (let* v := call StrictVersion in set_global "macOS_version" v) ;;;
     (let* v := call CDLL_Security in set_global "Security" v) ;;;
     get_global "Security" ;;;
     (let* v := call (Security_getattr "AuthorizationRightGet") in
      set_global "AuthorizationRightGet" v) ;;;
     get_global "Security" ;;;
     (let* v := call (Security_getattr "AuthorizationRightSet") in
      set_global "AuthorizationRightSet" v) ;;;
     get_global "Security" ;;;
     (let* v := call (Security_getattr "AuthorizationCreate") in
      set_global "AuthorizationCreate" v) ;;;
     set_global "system_prefs_to_change" system_prefs_to_change ;;;
     call power_prefs ;;;
     ret ())
    isinstance_Exception
    (λ e, as_error e
            (print "  ✖ Unable to unlock all System Preference Panes specified")) ;;;
  print "• Enable Location Services and set the computer to use automatic time and timezone" ;;;
  call location_services ;;;
  call autotimezone ;;;
  set_argv 6 "exit".

(** The body of the [while]: the [if]/[elif] chain on [argv[5]], which
    has no [else]. *)
Definition loop_body : M unit :=
  let* c := argv_is 5 "computer" in
  if c then branch_computer else
  let* c := argv_is 5 "remotemanagement" in
  if c then branch_remotemanagement else
  let* c := argv_is 5 "settings" in
  if c then branch_settings else
  let* c := argv_is 5 "createmanifest" in
  if c then branch_createmanifest else
  let* c := argv_is 5 "beautifyadmin" in
  if c then branch_beautifyadmin else
  let* c := argv_is 5 "directorybinding" in
  if c then branch_directorybinding else
  let* c := argv_is 5 "munki" in
  if c then branch_munki else
  let* c := argv_is 5 "sysprefs" in
  if c then branch_sysprefs else
  ret ().

(** [while argv[6] != "exit": loop_body], at most [fuel] evaluations of
    the condition. *)
Fixpoint main_loop (fuel : nat) (st : state) : run_result :=
  match fuel with
  | 0 => OutOfFuel st
  | S fuel' =>
      match argv_is 6 "exit" st with
      | (Exc e, st') => Crashed e st'
      | (Ok true, st') => Exited st'
      | (Ok false, st') =>
          match loop_body st' with
          | (Ok _, st'') => main_loop fuel' st''
          | (Exc e, st'') => Crashed e st''
          end
      end
  end.

End WithWorld.

(** ** Stages, the order the branches chain them in, and what a trace tells *)

(** The eight names the [if]/[elif] chain tests [argv[5]] against. *)
Inductive stage : Set :=
  | computer
  | remotemanagement
  | settings
  | createmanifest
  | beautifyadmin
  | directorybinding
  | munki
  | sysprefs.

#[global] Instance stage_eq_dec : EqDecision stage.
Proof. solve_decision. Defined.

(** The string each stage is called by in [argv[5]]. *)
Definition stage_name (s : stage) : string :=
  match s with
  | computer => "computer"
  | remotemanagement => "remotemanagement"
  | settings => "settings"
  | createmanifest => "createmanifest"
  | beautifyadmin => "beautifyadmin"
  | directorybinding => "directorybinding"
  | munki => "munki"
  | sysprefs => "sysprefs"
  end.

(** The stages in the order the branches hand over to one another. *)
Definition all_stages : list stage :=
  [computer; remotemanagement; settings; createmanifest; beautifyadmin;
   directorybinding; munki; sysprefs].

(** The stage a name stands for, tested in the order of the [if]/[elif]
    chain. *)
Definition stage_of_name (name : string) : option stage :=
  if String.eqb name "computer" then Some computer
  else if String.eqb name "remotemanagement" then Some remotemanagement
  else if String.eqb name "settings" then Some settings
  else if String.eqb name "createmanifest" then Some createmanifest
  else if String.eqb name "beautifyadmin" then Some beautifyadmin
  else if String.eqb name "directorybinding" then Some directorybinding
  else if String.eqb name "munki" then Some munki
  else if String.eqb name "sysprefs" then Some sysprefs
  else None.

(** A name is recognized when it is one of the eight. *)
Definition recognized (name : string) : bool :=
  match stage_of_name name with
  | Some _ => true
  | None => false
  end.

(** The stage each branch names in its [argv[5] = ...]; the [sysprefs]
    branch names none. *)
Definition successor (s : stage) : option stage :=
  match s with
  | computer => Some remotemanagement
  | remotemanagement => Some settings
  | settings => Some createmanifest
  | createmanifest => Some beautifyadmin
  | beautifyadmin => Some directorybinding
  | directorybinding => Some munki
  | munki => Some sysprefs
  | sysprefs => None
  end.

(** The position of a stage in [all_stages]. *)
Definition stage_index (s : stage) : nat :=
  match s with
  | computer => 0
  | remotemanagement => 1
  | settings => 2
  | createmanifest => 3
  | beautifyadmin => 4
  | directorybinding => 5
  | munki => 6
  | sysprefs => 7
  end.

(** The stages from [s] to the end of the order. *)
Definition stages_from (s : stage) : list stage :=
  drop (stage_index s) all_stages.

(** The first call of each branch marks that the branch was entered. *)
Definition stage_entered (ev : event) : option stage :=
  match ev with
  | Call set_computer_name => Some computer
  | Call harden_ard => Some remotemanagement
  | Call settings_setup => Some settings
  | Call create_munki_manifest => Some createmanifest
  | Call beautify_admin_accounts => Some beautifyadmin
  | Call jamf_policy => Some directorybinding
  | Call munki_download_and_install => Some munki
  | Call mac_ver => Some sysprefs
  | _ => None
  end.

(** The stages a trace went through, in order, with repetitions. *)
Definition stages_run (tr : list event) : list stage :=
  omap stage_entered tr.

(** The line the handler of each branch prints. *)
Definition failure_line (s : stage) : string :=
  match s with
  | computer => "  ✖ Unable to set computer name"
  | remotemanagement => "  ✖ Unable to Harden Remote Management properly"
  | settings => "  ✖ Unable to set settings for NTP Serverand Set Computer Name Daemon"
  | createmanifest => "  ✖ Unable to create a munki manifest"
  | beautifyadmin => "  ✖ Unable to add flair to the admin accounts."
  | directorybinding => "  ✖ Unable to bind to Enterprise Active Directory"
  | munki => "  ✖ Unable to install munki and trigger bootstrap"
  | sysprefs => "  ✖ Unable to unlock all System Preference Panes specified"
  end.

(** How a stage ended, as the run log tells it. *)
Inductive Outcome : Type :=
  | Success
  | Failure (reason : string).

(** A stage is reported failed when the loop printed the line of its
    handler. *)
Definition outcome_in (tr : list event) (s : stage) : Outcome :=
  if bool_decide (Print (failure_line s) ∈ tr)
  then Failure (failure_line s) else Success.

(** The run log read off a trace: the stages entered, each with its
    outcome. *)
Definition run_log (tr : list event) : list (stage * Outcome) :=
  (λ s, (s, outcome_in tr s)) <$> stages_run tr.

(** The two ways of running the script, decided by [argv[4]]. *)
Inductive Mode : Set := Chained | Single.

Definition mode_of (flag : string) : Mode :=
  if String.eqb flag "DEP" then Chained else Single.

(** What an iteration decides for the loop. *)
Inductive NextStageDecision : Set :=
  | Advance (next : stage)
  | Terminate.

(** The resolver as the specification words it: in single mode always
    terminate; in chained mode advance to the successor, and terminate on
    the last stage. *)
Definition ModeResolver (s : stage) (m : Mode) : NextStageDecision :=
  match m with
  | Single => Terminate
  | Chained =>
      match successor s with
      | Some s' => Advance s'
      | None => Terminate
      end
  end.

(** What a decision does to [argv]. *)
Definition apply_decision (d : NextStageDecision) (a : list string) : list string :=
  match d with
  | Advance s' => <[5 := stage_name s']> a
  | Terminate => <[6 := "exit"]> a
  end.

(** The decision read off [argv] after an iteration. *)
Definition decision_taken (a : list string) : option NextStageDecision :=
  match a !! 6 with
  | Some flag =>
      if String.eqb flag "exit" then Some Terminate
      else
        match a !! 5 with
        | Some name => Advance <$> stage_of_name name
        | None => None
        end
  | None => None
  end.

(** An exception is contained when the [except] clause around the call
    matches it; the two calls after the [try] of the [sysprefs] branch
    have no clause around them. *)
Definition contained_by (o : op) (e : pyexn) : bool :=
  match o with
  | jamf_policy => isinstance_CalledProcessError e
  | location_services | autotimezone => false
  | _ => isinstance_Exception e
  end.

(** A world in which every call either returns or raises an exception its
    branch catches. *)
Definition contained (w : world) : Prop :=
  ∀ tr o e, w tr o = Raises e → contained_by o e = true.

(** The state a run was in when it ended, or when the fuel ran out. *)
Definition final_state (r : run_result) : state :=
  match r with
  | Exited st | Crashed _ st | OutOfFuel st => st
  end.

(** A run ended: the loop was left, through its condition or by an
    exception. *)
Definition terminated (r : run_result) : bool :=
  match r with
  | Exited _ | Crashed _ _ => true
  | OutOfFuel _ => false
  end.


(** The call that opens the [try] of each branch. *)
Definition entry_op (s : stage) : op :=
  match s with
  | computer => set_computer_name
  | remotemanagement => harden_ard
  | settings => settings_setup
  | createmanifest => create_munki_manifest
  | beautifyadmin => beautify_admin_accounts
  | directorybinding => jamf_policy
  | munki => munki_download_and_install
  | sysprefs => mac_ver
  end.

(** A call that raises whenever it is made. *)
Definition always_fails (w : world) (o : op) : Prop :=
  ∀ tr, ∃ e, w tr o = Raises e.

(** The module globals the loop itself binds: [error] in the handlers
    written [except ... as error], the others in the [try] of the
    [sysprefs] branch. *)
Definition scratch_names : list string :=
  ["error"; "macOS_version"; "Security"; "AuthorizationRightGet";
   "AuthorizationRightSet"; "AuthorizationCreate"; "system_prefs_to_change"].

(** The variables set before the loop, which the stage functions read. *)
Definition config_names : list string :=
  ["prefix"; "computer_name"; "local_node"; "mwa_address";
   "basic_auth_string_mwa"; "admin_list"; "admins_to_prepare"].

(** [build_computer_name], given the serial number IOKit reports. *)
Definition build_computer_name (prefix serial : string) : string :=
  prefix +:+ "-" +:+ serial.

(** The globals as the assignments before the loop leave them. *)
Definition initial_globals (serial : string) : gmap string pyval :=
  let admin := [("display_name", "Display Name Here");
                ("picture_address", "Web address of account Picture");
                ("picture_filename", "Filename for picture downloaded")] in
  list_to_map
    [("prefix", VStr "Your Prefix Here");
     ("computer_name", VStr (build_computer_name "Your Prefix Here" serial));
     ("local_node", VForeign "/Local/Default");
     ("mwa_address", VStr "https://your.address.here:portnumber");
     ("basic_auth_string_mwa", VStr "Basic: YourAuthTagHere");
     ("admin_list", VStrList ["admin1"; "admin2"]);
     ("admins_to_prepare", VDict [("admin1", admin); ("admin2", admin)])].

(** The state at the loop head when jamf runs the script with [mode] as
    parameter 4 and [name] as parameter 5, parameter 6 left empty. *)
Definition start (mode name : string) : state :=
  State ["Enrollment.py"; "/"; "C02XK0AAJG5H"; "admin1"; mode; name; ""]
        (initial_globals "C02XK0AAJG5H") [].

(** A machine on which every call returns. *)
Definition healthy : world :=
  λ _ o, match o with
         | mac_ver => Returns (VStr "10.15.6")
         | StrictVersion => Returns (VForeign "StrictVersion ('10.15.6')")
         | CDLL_Security => Returns (VForeign "<CDLL 'Security'>")
         | Security_getattr name => Returns (VForeign name)
         | _ => Returns VNone
         end.

(** A machine on which [jamf policy -event fixEADBinding] exits with a
    non-zero status. *)
Definition binding_refused : world :=
  λ tr o, match o with
          | jamf_policy =>
              Raises (PyExn CalledProcessError
                        "Command '/usr/local/bin/jamf' returned non-zero exit status 1.")
          | _ => healthy tr o
          end.

(** A machine without the jamf binary: [check_output] raises
    [FileNotFoundError], which is not a [CalledProcessError]. *)
Definition jamf_missing : world :=
  λ tr o, match o with
          | jamf_policy =>
              Raises (PyExn FileNotFoundError
                        "[Errno 2] No such file or directory: '/usr/local/bin/jamf'")
          | _ => healthy tr o
          end.

(** A machine on which [location_services] raises. *)
Definition locationd_broken : world :=
  λ tr o, match o with
          | location_services =>
              Raises (PyExn RuntimeError "CoreLocation is not available")
          | _ => healthy tr o
          end.

(** What one iteration of the loop on stage [s] does, whatever the world
    answers: [tr'] is what it adds to the trace. *)
Record iteration (w : world) (s : stage) (m : string) (st : state)
    (r : res unit) (st' : state) (tr' : list event) : Prop := {
  it_trace : trace st' = trace st ++ tr';
  it_stage : stages_run tr' = [s];
  it_contained : contained w → r = Ok ();
  it_globals : ∀ x, x ∉ scratch_names → globals st' !! x = globals st !! x;
  it_argv :
    argv st' = match r with
               | Ok _ => apply_decision (ModeResolver s (mode_of m)) (argv st)
               | Exc _ => argv st
               end;
  it_failed :
    contained w → always_fails w (entry_op s) → Print (failure_line s) ∈ tr'
}.

(** What the loop may change between two states: [argv] keeps its length
    and every element but those at 5 and 6, and the globals outside
    [scratch_names] keep their binding. *)
Definition frame (st st' : state) : Prop :=
  length (argv st') = length (argv st) ∧
  (∀ i, i ≠ 5 → i ≠ 6 → argv st' !! i = argv st !! i) ∧
  (∀ x, x ∉ scratch_names → globals st' !! x = globals st !! x).

(** A run reports an error to its caller when an exception leaves the
    loop. *)
Definition reports_error (r : run_result) : bool :=
  match r with
  | Crashed _ _ => true
  | Exited _ | OutOfFuel _ => false
  end.

(** ** The outcome lines of the loop

    The script keeps no log of its own: what it records of a stage is the
    line the loop prints when the [try] of the branch ends, [completed], or
    the line of the handler.  The trace holds the lines the loop prints
    itself, so the record of a run is read off it, stage by stage. *)







(** * The stage functions

    The functions of the script the loop calls, one level below the loop:
    here a call is a call of a library function or a method of a foreign
    object, with its arguments, and the trace keeps what each call
    answered.  The module globals a function reads ([computer_name],
    [admin_list], [admins_to_prepare], [local_node], ...) are its arguments
    here, and keyword arguments that only redirect the error stream
    ([stderr=PIPE], [stderr=STDOUT]) are left out. *)

Module Functions.

(** The values the functions handle: [FObj] is a foreign object (a
    directory node or record, a preferences session, a file), which has
    methods and is no container; a dictionary a call returns is a
    [FDict], and [FStr] stands for [str] and for [bytes]. *)
#[warnings="-register-all"]
Inductive fval : Type :=
  | FNone
  | FBool (b : bool)
  | FInt (z : Z)
  | FStr (s : string)
  | FList (l : list fval)
  | FDict (d : list (string * fval))
  | FObj (handle : string).

(** An exception: the name of its class and [str(error)]. *)
Record exn : Type := Exn { class_name : string; message : string }.

(** [isinstance(e, Exception)]: of the built-in classes, all derive from
    [Exception] but these three. *)
Definition isinstance_Exception (e : exn) : bool :=
  negb (bool_decide
          (class_name e ∈ ["KeyboardInterrupt"; "SystemExit"; "GeneratorExit"])).

Inductive fanswer : Type :=
  | Returned (v : fval)
  | Raised (e : exn).

(** A call of the function [f] on [args] (for a method, the receiver
    comes first) with its answer, or a line printed. *)
Inductive fevent : Type :=
  | Called (f : string) (args : list fval) (a : fanswer)
  | Printed (line : string).

(** The machine: what a call answers, given what happened so far. *)
Definition machine : Type := list fevent → string → list fval → fanswer.

(** What the functions can change besides making calls: the effective
    user id of the process and the authorization database, a map from the
    name of a right to its rule. *)
Record mstate : Type := MState {
  log : list fevent;
  euid : fval;
  rights : gmap string (gmap string fval)
}.

Inductive res (A : Type) : Type :=
  | Ok (a : A)
  | Exc (e : exn).
Arguments Ok {A} a.
Arguments Exc {A} e.

Definition F (A : Type) : Type := mstate → res A * mstate.

Definition ret {A} (a : A) : F A := λ st, (Ok a, st).

Definition bind {A B} (m : F A) (k : A → F B) : F B :=
  λ st, match m st with
        | (Ok a, st') => k a st'
        | (Exc e, st') => (Exc e, st')
        end.

Declare Scope fn_scope.
Delimit Scope fn_scope with fn.
Notation "'let*' x := m 'in' k" := (bind m (λ x, k))
  (at level 10, x name, m at level 100, k at level 200) : fn_scope.
Notation "m ;;; k" := (bind m (λ _, k))
  (at level 100, k at level 200, right associativity) : fn_scope.
#[local] Open Scope fn_scope.

(** A step of the interpreter alone, which leaves the state as it is. *)
Definition lift {A} (r : res A) : F A := λ st, (r, st).

Definition raise {A} (cls text : string) : res A := Exc (Exn cls text).

(** Sequencing of such steps. *)
Definition and_then {A B} (r : res A) (k : A → res B) : res B :=
  match r with
  | Ok a => k a
  | Exc e => Exc e
  end.

(** [try: body except <class> as error: handler] *)
Definition try_except {A} (body : F A) (matches : exn → bool)
    (handler : exn → F A) : F A :=
  λ st, match body st with
        | (Ok a, st') => (Ok a, st')
        | (Exc e, st') => if matches e then handler e st' else (Exc e, st')
        end.

(** [try: body except: pass], which catches every exception. *)
Definition try_pass (body : F unit) : F unit :=
  λ st, match body st with
        | (Ok a, st') => (Ok a, st')
        | (Exc _, st') => (Ok (), st')
        end.

Definition print (line : string) : F unit :=
  λ st, (Ok (), MState (log st ++ [Printed line]) (euid st) (rights st)).

(** [for x in l: body x] *)
Fixpoint for_each {A} (l : list A) (body : A → F unit) : F unit :=
  match l with
  | [] => ret ()
  | x :: l' => body x ;;; for_each l' body
  end.

(** ** Pure Python *)

(** [sep.join(l)] *)
Fixpoint join (sep : string) (l : list string) : string :=
  match l with
  | [] => ""
  | [x] => x
  | x :: l' => x +:+ sep +:+ join sep l'
  end.

(** [needle in hay] for two strings. *)
Fixpoint contains (needle hay : string) : bool :=
  String.prefix needle hay ||
  match hay with
  | EmptyString => false
  | String _ hay' => contains needle hay'
  end.

(** The value under a key of a dict kept as an association list. *)
Fixpoint assoc (k : string) (d : list (string * fval)) : option fval :=
  match d with
  | [] => None
  | (k', v) :: d' => if String.eqb k k' then Some v else assoc k d'
  end.

(** [type(v).__name__] *)
Definition type_name (v : fval) : string :=
  match v with
  | FNone => "NoneType"
  | FBool _ => "bool"
  | FInt _ => "int"
  | FStr _ => "str"
  | FList _ => "list"
  | FDict _ => "dict"
  | FObj _ => "objc_object"
  end.

(** [v[k]] for a string key: a [KeyError] on a dict without the key, a
    [TypeError] on anything else. *)
Definition subscript (v : fval) (k : string) : res fval :=
  match v with
  | FDict d =>
      match assoc k d with
      | Some x => Ok x
      | None => raise "KeyError" ("'" +:+ k +:+ "'")
      end
  | FStr _ => raise "TypeError" "string indices must be integers"
  | FList _ => raise "TypeError" "list indices must be integers or slices, not str"
  | _ => raise "TypeError" ("'" +:+ type_name v +:+ "' object is not subscriptable")
  end.

(** [v[0]]: the first item of a list, the first character of a string, a
    [KeyError] on a dict (its keys are strings here). *)
Definition first_item (v : fval) : res fval :=
  match v with
  | FList (x :: _) => Ok x
  | FList [] => raise "IndexError" "list index out of range"
  | FStr (String c _) => Ok (FStr (String c ""))
  | FStr "" => raise "IndexError" "string index out of range"
  | FDict _ => raise "KeyError" "0"
  | _ => raise "TypeError" ("'" +:+ type_name v +:+ "' object is not subscriptable")
  end.

(** [v is None] *)
Definition is_none (v : fval) : bool :=
  match v with
  | FNone => true
  | _ => false
  end.

(** [v is False] *)
Definition is_False (v : fval) : bool :=
  match v with
  | FBool false => true
  | _ => false
  end.

(** [v is True] *)
Definition is_True (v : fval) : bool :=
  match v with
  | FBool true => true
  | _ => false
  end.

(** [v == s] for a string [s] *)
Definition eq_str (v : fval) (s : string) : bool :=
  match v with
  | FStr t => String.eqb t s
  | _ => false
  end.

(** Whether the code of a byte lies between [lo] and [hi]. *)
Definition byte_in (lo hi : N) (c : Ascii.ascii) : bool :=
  ((lo <=? Ascii.N_of_ascii c) && (Ascii.N_of_ascii c <=? hi))%N.

(** A continuation byte, [0x80] to [0xBF]. *)
Definition continuation (c : Ascii.ascii) : bool := byte_in 128 191 c.

(** The first two bytes of a sequence of three: [E0 A0..BF], [E1..EC
    80..BF], [ED 80..9F] (no surrogate), [EE..EF 80..BF]. *)
Definition starts_three (c1 c2 : Ascii.ascii) : bool :=
  (byte_in 224 224 c1 && byte_in 160 191 c2)
  || (byte_in 225 236 c1 && continuation c2)
  || (byte_in 237 237 c1 && byte_in 128 159 c2)
  || (byte_in 238 239 c1 && continuation c2).

(** The first two bytes of a sequence of four: [F0 90..BF], [F1..F3
    80..BF], [F4 80..8F] (nothing above U+10FFFF). *)
Definition starts_four (c1 c2 : Ascii.ascii) : bool :=
  (byte_in 240 240 c1 && byte_in 144 191 c2)
  || (byte_in 241 243 c1 && continuation c2)
  || (byte_in 244 244 c1 && byte_in 128 143 c2).

(** Whether bytes are well-formed UTF-8, as the strict decoder of Python
    takes them: no stray or missing continuation byte, no overlong form,
    no surrogate, nothing above U+10FFFF. *)
Fixpoint valid_utf8 (s : string) : bool :=
  match s with
  | EmptyString => true
  | String c1 s1 =>
      if byte_in 0 127 c1 then valid_utf8 s1
      else
        match s1 with
        | EmptyString => false
        | String c2 s2 =>
            if byte_in 194 223 c1 then continuation c2 && valid_utf8 s2
            else
              match s2 with
              | EmptyString => false
              | String c3 s3 =>
                  if starts_three c1 c2 then continuation c3 && valid_utf8 s3
                  else
                    match s3 with
                    | EmptyString => false
                    | String c4 s4 =>
                        starts_four c1 c2 && continuation c3 && continuation c4
                        && valid_utf8 s4
                    end
              end
        end
  end.

(** [str(v, 'utf-8')] of the bytes a command printed: a
    [UnicodeDecodeError] on bytes that are not well-formed UTF-8 (its text
    is kept short here: Python adds the byte and its position), a
    [TypeError] on what is no bytes. *)
Definition decode (v : fval) : res string :=
  match v with
  | FStr s =>
      if valid_utf8 s then Ok s
      else raise "UnicodeDecodeError" "'utf-8' codec can't decode bytes"
  | _ => raise "TypeError" "decoding to str: need a bytes-like object"
  end.

(** [s.encode('ascii')], of which the functions only keep that it can
    raise: a [UnicodeEncodeError] when [s] has a character outside ASCII
    (a byte above 127 of its UTF-8 form). *)
Fixpoint is_ascii (s : string) : bool :=
  match s with
  | EmptyString => true
  | String (Ascii.Ascii _ _ _ _ _ _ _ top) s' => negb top && is_ascii s'
  end.

Definition encode_ascii (s : string) : res unit :=
  if is_ascii s then Ok ()
  else raise "UnicodeEncodeError"
             "'ascii' codec can't encode character: ordinal not in range(128)".

(** The comparison of two [StrictVersion]s without pre-release tag: that
    of their (major, minor, patch) tuples. *)
Definition version_lt (a b : nat * nat * nat) : bool :=
  let '(a1, a2, a3) := a in
  let '(b1, b2, b3) := b in
  (a1 <? b1) || ((a1 =? b1) && ((a2 <? b2) || ((a2 =? b2) && (a3 <? b3)))).

(** [build_computer_name] (lines 80-98), given the serial number IOKit
    reports: ['{0:}-{1:}'.format(prefix, serial_number)]. *)
Definition build_computer_name (prefix serial_number : string) : string :=
  prefix +:+ "-" +:+ serial_number.

(** ** Reading a trace *)

(** The functions called, in order. *)
Definition called (tr : list fevent) : list string :=
  omap (λ ev, match ev with Called f _ _ => Some f | Printed _ => None end) tr.

(** The calls that raised, each with its exception. *)
Definition raised (tr : list fevent) : list (string * exn) :=
  omap (λ ev, match ev with
              | Called f _ (Raised e) => Some (f, e)
              | _ => None
              end) tr.

(** The commands given to [check_output], in order. *)
Definition command_of (f : string) (args : list fval) : option (list fval) :=
  if String.eqb f "check_output"
  then match args with
       | [FList cmd] => Some cmd
       | _ => None
       end
  else None.

Definition commands (tr : list fevent) : list (list fval) :=
  omap (λ ev, match ev with
              | Called f args _ => command_of f args
              | Printed _ => None
              end) tr.

(** The commands whose [check_output] returned, in order. *)
Definition succeeded (tr : list fevent) : list (list fval) :=
  omap (λ ev, match ev with
              | Called f args (Returned _) => command_of f args
              | _ => None
              end) tr.

(** The values a returning [addValue_toAttribute_error_] added under the
    attribute [dsAttrTypeStandard:GroupMembership], in order. *)
Definition memberships (tr : list fevent) : list fval :=
  omap (λ ev, match ev with
              | Called f [_; account; FStr attribute; _] (Returned _) =>
                  if String.eqb f "addValue_toAttribute_error_"
                     && String.eqb attribute "dsAttrTypeStandard:GroupMembership"
                  then Some account else None
              | _ => None
              end) tr.

(** What the calls of [f] that returned gave back, in order. *)
Definition returned_by (f : string) (tr : list fevent) : list fval :=
  omap (λ ev, match ev with
              | Called g _ (Returned v) => if String.eqb g f then Some v else None
              | _ => None
              end) tr.

(** The lines printed, in order. *)
Definition printed (tr : list fevent) : list string :=
  omap (λ ev, match ev with Printed line => Some line | _ => None end) tr.

(** A machine whose calls raise nothing but exceptions that derive from
    [Exception]. *)
Definition ordinary (mach : machine) : Prop :=
  ∀ h f args e, mach h f args = Raised e → isinstance_Exception e = true.

(** The result is not an exception that derives from [Exception]. *)
Definition contained {A} (r : res A) : Prop :=
  match r with
  | Ok _ => True
  | Exc e => isinstance_Exception e = false
  end.

Section WithMachine.
Context (mach : machine).

(** A call: it is recorded with its answer. *)
Definition extcall (f : string) (args : list fval) : F fval :=
  λ st, let a := mach (log st) f args in
        let st' := MState (log st ++ [Called f args a]) (euid st) (rights st) in
        match a with
        | Returned v => (Ok v, st')
        | Raised e => (Exc e, st')
        end.

(** Looking up the method [f] of [recv]: an [AttributeError] on [None]
    and on every value that is no foreign object. *)
Definition getattr (recv : fval) (f : string) : res unit :=
  match recv with
  | FObj _ => Ok ()
  | _ => raise "AttributeError"
               ("'" +:+ type_name recv +:+ "' object has no attribute '" +:+ f +:+ "'")
  end.

(** A method call [recv.f(args)] on arguments that are already values. *)
Definition method (recv : fval) (f : string) (args : list fval) : F fval :=
  lift (getattr recv f) ;;; extcall f (recv :: args).

(** [check_output(cmd)] *)
Definition check_output (cmd : list fval) : F fval :=
  extcall "check_output" [FList cmd].

(** [seteuid(uid)]: when the call returns, the effective user id is
    [uid]. *)
Definition seteuid (uid : fval) : F unit :=
  extcall "seteuid" [uid] ;;;
  λ st, (Ok (), MState (log st) uid (rights st)).

(** [getpwnam(name).pw_uid] *)
Definition pw_uid (name : string) : F fval := extcall "getpwnam" [FStr name].

(** [getgrnam(name).gr_gid] *)
Definition gr_gid (name : string) : F fval := extcall "getgrnam" [FStr name].

(** [set_computer_name] (lines 102-119) *)
Definition set_computer_name (computer_name : string) : F unit :=
  print ("• Set Computer Name to " +:+ computer_name) ;;;
  let* sys_prefs :=
    extcall "SCPreferencesCreate" [FNone; FStr "SystemConfiguration"; FNone] in
  try_except
    (extcall "SCPreferencesSetComputerName" [sys_prefs; FStr computer_name; FInt 0] ;;;
     extcall "SCPreferencesSetLocalHostName" [sys_prefs; FStr computer_name] ;;;
     extcall "SCPreferencesCommitChanges" [sys_prefs] ;;;
     extcall "SCPreferencesApplyChanges" [sys_prefs] ;;;
     extcall "SCPreferencesSynchronize" [sys_prefs] ;;;
     ret ())
    isinstance_Exception
    (λ error, print ("  ✖ " +:+ message error)).

Definition kickstart : string :=
  "/System/Library/CoreServices/RemoteManagement/ARDAgent.app/Contents/Resources/kickstart".

(** The four commands of [harden_ard], in the order it runs them. *)
Definition ard_commands (admin_list : list string) : list (list fval) :=
  map (map FStr)
  [[kickstart; "-deactivate"; "-configure"; "-access"; "-off"];
   [kickstart; "-activate"; "-configure"; "-allowAccessFor"; "-specifiedUsers"];
   [kickstart; "-configure"; "-users"; join "," admin_list;
    "-access"; "-on"; "-privs"; "-all"];
   [kickstart; "-restart"; "-agent"]].

(** [harden_ard] (lines 131-166) *)
Definition harden_ard (admin_list : list string) : F unit :=
  print "• Harden Remote Management" ;;;
  try_except
    (check_output (FStr <$> [kickstart; "-deactivate"; "-configure";
                             "-access"; "-off"]) ;;;
     check_output (FStr <$> [kickstart; "-activate"; "-configure";
                             "-allowAccessFor"; "-specifiedUsers"]) ;;;
     check_output (FStr <$> [kickstart; "-configure"; "-users";
                             join "," admin_list;
                             "-access"; "-on"; "-privs"; "-all"]) ;;;
     check_output (FStr <$> [kickstart; "-restart"; "-agent"]) ;;;
     print ("  ○ ARD Access set to only allow " +:+ join "," admin_list))
    isinstance_Exception
    (λ error, print ("  ✖ " +:+ message error)).

Definition kODRecordTypeGroups : fval := FStr "dsRecTypeStandard:Groups".
Definition kODRecordTypeUsers : fval := FStr "dsRecTypeStandard:Users".

(** [node.recordWithRecordType_name_attributes_error_(type, name, None,
    None)], the record of the pair it returns: [None] when there is no such
    record. *)
Definition record_with (node type : fval) (name : string) : F fval :=
  method node "recordWithRecordType_name_attributes_error_"
         [type; FStr name; FNone; FNone].

Definition systemsetup : string := "/usr/sbin/systemsetup".

Definition remote_login (value : string) : list fval :=
  FStr <$> [systemsetup; "-f"; "-setremotelogin"; value].

(** The body of the loop of [harden_ssh] (lines 204-217), for one
    account. *)
Definition add_ssh_account (local_node local_ssh : fval) (ssh_account : string)
    : F unit :=
  let* ssh_account_info := record_with local_node kODRecordTypeUsers ssh_account in
  let* ssh_account_info_values :=
    method ssh_account_info "recordDetailsForAttributes_error_" [FNone; FNone] in
  let* uids :=
    lift (subscript ssh_account_info_values "dsAttrTypeStandard:GeneratedUID") in
  let* ssh_account_uid := lift (first_item uids) in
  method local_ssh "addValue_toAttribute_error_"
         [FStr ssh_account; FStr "dsAttrTypeStandard:GroupMembership"; FNone] ;;;
  method local_ssh "addValue_toAttribute_error_"
         [ssh_account_uid; FStr "dsAttrTypeStandard:GroupMembers"; FNone] ;;;
  ret ().

(** The part of [harden_ssh] between the two [systemsetup] commands
    (lines 178-220): it deletes the groups [com.apple.access_ssh-disabled]
    and [com.apple.access_ssh] when they exist, creates the second one
    afresh and adds every account of [admin_list] to it. *)
Definition ssh_access_group (admin_list : list string) (local_node : fval) : F unit :=
  let* local_ssh_disabled :=
    record_with local_node kODRecordTypeGroups "com.apple.access_ssh-disabled" in
  (if is_none local_ssh_disabled then ret ()
   else method local_ssh_disabled "deleteRecordAndReturnError_" [FNone] ;;; ret ()) ;;;
  let* local_ssh_current :=
    record_with local_node kODRecordTypeGroups "com.apple.access_ssh" in
  (if is_none local_ssh_current then ret ()
   else method local_ssh_current "deleteRecordAndReturnError_" [FNone] ;;; ret ()) ;;;
  method local_node "createRecordWithRecordType_name_attributes_error_"
         [kODRecordTypeGroups; FStr "com.apple.access_ssh"; FNone; FNone] ;;;
  let* local_ssh :=
    record_with local_node kODRecordTypeGroups "com.apple.access_ssh" in
  method local_ssh "addValue_toAttribute_error_"
         [FStr "501"; FStr "dsAttrTypeStandard:PrimaryGroupID"; FNone] ;;;
  for_each admin_list (add_ssh_account local_node local_ssh) ;;;
  method local_ssh "synchronizeAndReturnError_" [FNone] ;;;
  ret ().

(** [harden_ssh] (lines 170-228).  The line printed at the end joins the
    keys of [admins_to_prepare], not [admin_list]. *)
Definition harden_ssh (admin_list : list string)
    (admins_to_prepare : list (string * fval)) (local_node : fval) : F unit :=
  try_except
    (check_output (remote_login "off") ;;;
     ssh_access_group admin_list local_node ;;;
     check_output (remote_login "on") ;;;
     print ("  ○ SSH Access set to only allow " +:+ join "," admins_to_prepare.*1))
    isinstance_Exception
    (λ error, print ("  ✖ " +:+ message error)).

(** [with open(path, mode) as f: body f]: the file is closed however the
    body ends. *)
Definition with_open {A} (path mode : string) (body : fval → F A) : F A :=
  let* f := extcall "open" [FStr path; FStr mode] in
  λ st, match body f st with
        | (Ok a, st') => (extcall "close" [f] ;;; ret a) st'
        | (Exc e, st') => (extcall "close" [f] ;;; λ st'', (Exc e, st'')) st'
        end.

Definition daemon_path : string :=
  "/Library/LaunchDaemons/edu.psu.setcomputername.plist".

Definition set_computer_name_plist (computer_name : string) : fval :=
  FDict [("RunAtLoad", FBool true);
         ("Label", FStr "edu.psu.setcomputername");
         ("ProgramArguments",
          FList (FStr <$> ["/usr/sbin/systemsetup"; "-setcomputername";
                           computer_name;
                           "-setlocalsubnetname"; computer_name]))].

(** [settings_setup] (lines 232-270); [version_major] is
    [version_info[0]]. *)
Definition settings_setup (version_major : nat) (computer_name : string) : F unit :=
  print "• Settings Setup for Time Server and Set Computer Name LaunchDaemon" ;;;
  try_except
    (check_output (FStr <$> [systemsetup; "-setnetworktimeserver"; "clock.psu.edu"]) ;;;
     check_output (FStr <$> [systemsetup; "-setusingnetworktime"; "on"]) ;;;
     print "  ○ Network Time Server set to clock.psu.edu")
    isinstance_Exception
    (λ error, print ("  ✖ " +:+ message error)) ;;;
  try_except
    ((if version_major =? 2
      then extcall "writePlist"
                   [set_computer_name_plist computer_name; FStr daemon_path] ;;;
           ret ()
      else with_open daemon_path "wb" (λ daemon_file,
             extcall "plist_dump"
                     [set_computer_name_plist computer_name; daemon_file] ;;;
             ret ())) ;;;
     let* root_uid := pw_uid "root" in
     let* wheel_uid := gr_gid "wheel" in
     extcall "chown" [FStr daemon_path; root_uid; wheel_uid] ;;;
     extcall "chmod" [FStr daemon_path; FInt 420] ;;;
     print "  ○ Set Computer Name on Boot LaunchDaemon Created")
    isinstance_Exception
    (λ error, print (message error)).

(** The dict [create_munki_manifest] sends for a new manifest. *)
Definition manifest_data : fval :=
  FDict [("catalogs", FList [FStr "production"]);
         ("included_manifests", FList [FStr "global"]);
         ("managed_installs", FList []);
         ("managed_uninstalls", FList []);
         ("managed_updates", FList []);
         ("optional_installs", FList [])].

Definition manifest_url (mwa_address computer_name : string) : string :=
  mwa_address +:+ "/api/manifests/" +:+ "hosts/" +:+ computer_name.

(** The two [curl] commands of [create_munki_manifest]; the first one is
    written with [' -i'], a space before the option. *)
Definition manifest_get (auth url : string) : list fval :=
  FStr <$> ["/usr/bin/curl"; " -i"; "-H"; "Authorization: " +:+ auth;
            "-H"; "Content-Type: application/json"; "-X"; "GET"; url].

Definition manifest_post (auth url : string) (data : fval) : list fval :=
  [FStr "/usr/bin/curl"; FStr "-i"; FStr "-H"; FStr ("Authorization: " +:+ auth);
   FStr "-H"; FStr "Content-Type: application/json";
   FStr "--data"; data; FStr "-X"; FStr "POST"; FStr url].

(** [create_munki_manifest] (lines 274-315) *)
Definition create_munki_manifest
    (mwa_address basic_auth_string_mwa computer_name : string) : F unit :=
  print ("• Create Munki Manifest for " +:+ computer_name) ;;;
  let url := manifest_url mwa_address computer_name in
  let* data := extcall "json_dumps" [manifest_data] in
  let* get_request := check_output (manifest_get basic_auth_string_mwa url) in
  let* text := lift (decode get_request) in
  if contains "production" text
  then print "  ○ A manifest was already found for this machine"
  else
    let* text := lift (decode get_request) in
    if contains "failed" text
    then check_output (manifest_post basic_auth_string_mwa url data) ;;;
         print ("  ○ Manifest created for " +:+ computer_name)
    else print "  ○ No modifications where made".

(** [authorization_right_get] (lines 319-326): a copy of the rule of the
    right, or [None] when the database has no such right.  The C function
    [AuthorizationRightGet] is the read of the database. *)
Definition authorization_right_get (right : string)
    : F (option (gmap string fval)) :=
  lift (encode_ascii right) ;;;
  λ st, (Ok (rights st !! right), st).

(** [authorization_right_set] (lines 330-336): the status
    [AuthorizationRightSet] returns; the database takes the rule when the
    status is 0. *)
Definition authorization_right_set (right : string) (value : gmap string fval)
    : F fval :=
  extcall "AuthorizationCreate" [] ;;;
  lift (encode_ascii right) ;;;
  let* status := extcall "AuthorizationRightSet" [FStr right] in
  λ st, (Ok status,
         match status with
         | FInt 0 => MState (log st) (euid st) (<[right := value]> (rights st))
         | _ => st
         end).

(** [db[key]] on what [authorization_right_get] returned. *)
Definition rule_item (db : option (gmap string fval)) (key : string) : res fval :=
  match db with
  | None => raise "TypeError" "'NoneType' object is not subscriptable"
  | Some d =>
      match d !! key with
      | Some v => Ok v
      | None => raise "KeyError" ("'" +:+ key +:+ "'")
      end
  end.

(** [db[key] = v] *)
Definition rule_set_item (db : option (gmap string fval)) (key : string) (v : fval)
    : res (gmap string fval) :=
  match db with
  | None => raise "TypeError" "'NoneType' object does not support item assignment"
  | Some d => Ok (<[key := v]> d)
  end.

(** The line [power_prefs] prints for a pane other than Date & Time: for
    the four names it knows; no line for another name. *)
Definition print_pane (preference : string) : F unit :=
  if String.eqb preference "system.preferences"
  then print " ○ System Preferences Overall"
  else if String.eqb preference "system.preferences.timemachine"
  then print " ○ Time Machine"
  else if String.eqb preference "system.preferences.energysaver"
  then print " ○ Energy Saver"
  else if String.eqb preference "system.preferences.network"
  then print " ○ Network"
  else ret ().

(** The [else] part of the body of the loop of [power_prefs] (lines
    424-458), for one pane. *)
Definition unlock_pane (preference : string) : F unit :=
  let* db := authorization_right_get preference in
  if String.eqb preference "system.preferences.datetime"
  then
    print " ○ Date & Time" ;;;
    let* shared := lift (rule_item db "shared") in
    if is_True shared
    then print "  ★ Already set"
    else
      let* db' := lift (rule_set_item db "shared" (FBool true)) in
      authorization_right_set preference db' ;;;
      print "  ✓ Completed"
  else
    print_pane preference ;;;
    let* group := lift (rule_item db "group") in
    if eq_str group "admin"
    then
      let* db' := lift (rule_set_item db "group" (FStr "everyone")) in
      authorization_right_set preference db' ;;;
      print "  ✓ Completed"
    else print "  ★ Already set".

(** The loop of [power_prefs]: the version is tested for every pane, and
    the function returns at the first pane when it is too old. *)
Fixpoint unlock_panes (macOS_version : nat * nat * nat)
    (system_prefs_to_change : list string) : F unit :=
  match system_prefs_to_change with
  | [] => ret ()
  | preference :: rest =>
      if version_lt macOS_version (10, 10, 0)
      then print "  ✖ This script will not function on 10.9.5 or below..."
      else unlock_pane preference ;;; unlock_panes macOS_version rest
  end.

(** [power_prefs] (lines 409-458) *)
Definition power_prefs (macOS_version : nat * nat * nat)
    (system_prefs_to_change : list string) : F unit :=
  print "• Unlock the following System Preference Panes:" ;;;
  unlock_panes macOS_version system_prefs_to_change.

Definition launchctl_kickstart (service : string) : list fval :=
  FStr <$> ["/bin/launchctl"; "kickstart"; "-k"; service].

(** [location_services] (lines 340-368) *)
Definition location_services : F unit :=
  print " ○ Location Services" ;;;
  let* ls_status := extcall "locationServicesEnabled" [] in
  if is_False ls_status
  then
    try_except
      (let* locationd_uid := pw_uid "_locationd" in
       seteuid locationd_uid ;;;
       extcall "CFPreferencesSetValue"
               [FStr "LocationServicesEnabled"; FBool true;
                FStr "com.apple.locationd";
                FStr "kCFPreferencesCurrentUser";
                FStr "kCFPreferencesCurrentHost"] ;;;
       seteuid (FInt 0) ;;;
       check_output (launchctl_kickstart "system/com.apple.locationd") ;;;
       print "  ✓ Completed")
      isinstance_Exception
      (λ error,
         print ("  ✖ " +:+ message error) ;;;
         print "   - Failed to enable Location Services. Please see error listed above")
  else print "  ★ Already Enabled".

(** [autotimezone] (lines 372-406) *)
Definition autotimezone : F unit :=
  print " ○ Automatic Time and Timezone" ;;;
  try_pass (extcall "remove" [FStr "/var/db/timed/Library/Preferences/*.*"] ;;; ret ()) ;;;
  try_pass (extcall "remove" [FStr "/var/db/timed/Library/Preferences/ByHost/*.*"] ;;;
            ret ()) ;;;
  try_except
    (let* timed_uid := pw_uid "_timed" in
     seteuid timed_uid ;;;
     extcall "CFPreferencesSetAppValue"
             [FStr "TMAutomaticTimeOnlyEnabled"; FBool true; FStr "com.apple.timed"] ;;;
     extcall "CFPreferencesSetAppValue"
             [FStr "TMAutomaticTimeZoneEnabled"; FBool true; FStr "com.apple.timed"] ;;;
     extcall "CFPreferencesSynchronize"
             [FStr "com.apple.timed"; FStr "kCFPreferencesCurrentUser";
              FStr "kCFPreferencesCurrentHost"] ;;;
     seteuid (FInt 0) ;;;
     check_output (launchctl_kickstart "system/com.apple.timed") ;;;
     print "  ✓ Completed")
    isinstance_Exception
    (λ error,
       print ("  ✖ " +:+ message error) ;;;
       print "   - Failed to enable automatic time and time zone. Please see error listed above.").

(** [admins_to_prepare[account][key]] *)
Definition admin_item (admins_to_prepare : list (string * fval))
    (account key : string) : res fval :=
  and_then (subscript (FDict admins_to_prepare) account)
           (λ entry, subscript entry key).

Definition set_value : string := "setValue_forAttribute_error_".

(** The body of the loop of [beautify_admin_accounts] (lines 469-494),
    for one account.  The method of the record is looked up before the
    arguments of the call are evaluated. *)
Definition beautify_account (admins_to_prepare : list (string * fval))
    (local_node : fval) (beauty_account : string) : F unit :=
  let* beauty_account_node :=
    record_with local_node kODRecordTypeUsers beauty_account in
  let* address :=
    lift (admin_item admins_to_prepare beauty_account "picture_address") in
  let* filename :=
    lift (admin_item admins_to_prepare beauty_account "picture_filename") in
  check_output [FStr "/usr/bin/curl"; address; FStr "--output"; filename] ;;;
  lift (getattr beauty_account_node set_value) ;;;
  let* filename :=
    lift (admin_item admins_to_prepare beauty_account "picture_filename") in
  extcall set_value [beauty_account_node; filename;
                     FStr "dsAttrTypeStandard:Picture"; FNone] ;;;
  lift (getattr beauty_account_node set_value) ;;;
  let* display_name :=
    lift (admin_item admins_to_prepare beauty_account "display_name") in
  extcall set_value [beauty_account_node; display_name;
                     FStr "dsAttrTypeStandard:RealName"; FNone] ;;;
  lift (getattr beauty_account_node set_value) ;;;
  extcall set_value [beauty_account_node; FStr "1";
                     FStr "dsAttrTypeNative:IsHidden"; FNone] ;;;
  let* filename :=
    lift (admin_item admins_to_prepare beauty_account "picture_filename") in
  let* beauty_account_image := extcall "dataWithContentsOfFile_" [filename] in
  lift (getattr beauty_account_node set_value) ;;;
  extcall set_value [beauty_account_node; beauty_account_image;
                     FStr "dsAttrTypeStandard:JPEGPhoto"; FNone] ;;;
  ret ().

(** [beautify_admin_accounts] (lines 462-494) *)
Definition beautify_admin_accounts (admin_list : list string)
    (admins_to_prepare : list (string * fval)) (local_node : fval) : F unit :=
  print "• Beautify Admin Accounts" ;;;
  for_each admin_list (beautify_account admins_to_prepare local_node).

Definition munki_github_url : string :=
  "https://api.github.com/repos/munki/munki/releases/latest".

(** The commands of [munki_download_and_install]; the first one is written
    with [' -i'] and with ['-H'] twice. *)
Definition munki_get : list fval :=
  FStr <$> ["/usr/bin/curl"; " -i"; "-H"; "-H"; "Content-Type: application/json";
            "-X"; "GET"; munki_github_url].

Definition munki_download (url : fval) : list fval :=
  [FStr "/usr/bin/curl"; FStr "-L"; url; FStr "--output"; FStr "/tmp/munki.pkg"].

Definition munki_install : list fval :=
  FStr <$> ["/usr/sbin/installer"; "-pkg"; "/tmp/munki.pkg"; "-target"; "/"].

Definition munki_bootstrap : list fval :=
  FStr <$> ["/usr/local/munki/managedsoftwareupdate"; "--set-bootstrap-mode"].

(** [munki_url_data['assets'][0]['browser_download_url']] *)
Definition download_url (munki_url_data : fval) : res fval :=
  and_then (subscript munki_url_data "assets") (λ assets,
  and_then (first_item assets) (λ asset,
  subscript asset "browser_download_url")).

(** [munki_download_and_install] (lines 498-522) *)
Definition munki_download_and_install : F unit :=
  print "• Download and Install Munki and trigger bootstrap" ;;;
  let* munki_url_output := check_output munki_get in
  let* munki_url_data := extcall "json_loads" [munki_url_output] in
  let* munki_download_url := lift (download_url munki_url_data) in
  check_output (munki_download munki_download_url) ;;;
  check_output munki_install ;;;
  check_output munki_bootstrap ;;;
  ret ().

End WithMachine.

(** ** What the statements below speak of *)

(** The calls of [set_computer_name], in the order it makes them. *)
Definition set_computer_name_calls : list string :=
  ["SCPreferencesCreate"; "SCPreferencesSetComputerName";
   "SCPreferencesSetLocalHostName"; "SCPreferencesCommitChanges";
   "SCPreferencesApplyChanges"; "SCPreferencesSynchronize"].

(** The calls of one iteration of [beautify_admin_accounts], in order. *)
Definition account_calls : list string :=
  ["recordWithRecordType_name_attributes_error_"; "check_output";
   set_value; set_value; set_value; "dataWithContentsOfFile_"; set_value].

(** The rule [power_prefs] writes for a right whose rule is [rule]. *)
Definition unlocked (right : string) (rule : gmap string fval) : gmap string fval :=
  if String.eqb right "system.preferences.datetime"
  then <["shared" := FBool true]> rule
  else <["group" := FStr "everyone"]> rule.

(** What a run may have done to the authorization database: each right
    keeps its rule, or is one of [prefs] and has its rule unlocked. *)
Definition only_unlocks (prefs : list string) (st st' : mstate) : Prop :=
  ∀ right,
    rights st' !! right = rights st !! right ∨
    (right ∈ prefs ∧ rights st' !! right = unlocked right <$> rights st !! right).

(** The rule leaves the pane open to every user: [shared] is [True] for
    Date & Time, and the group of another pane is not [admin]. *)
Definition pane_unlocked (right : string) (rule : gmap string fval) : Prop :=
  if String.eqb right "system.preferences.datetime"
  then ∃ shared, rule !! "shared" = Some shared ∧ is_True shared = true
  else ∃ group, rule !! "group" = Some group ∧ eq_str group "admin" = false.

(** ** Sample machines and configurations *)

(** The dict [admins_to_prepare] of the script (lines 538-548). *)
Definition admins_to_prepare : list (string * fval) :=
  [("admin1", FDict [("display_name", FStr "Display Name Here");
                     ("picture_address", FStr "Web address of account Picture");
                     ("picture_filename", FStr "Filename for picture downloaded")]);
   ("admin2", FDict [("display_name", FStr "Display Name Here");
                     ("picture_address", FStr "Web address of account Picture");
                     ("picture_filename", FStr "Filename for picture downloaded")])].

(** The panes the [sysprefs] branch lists (lines 658-664). *)
Definition panes : list string :=
  ["system.preferences";
   "system.preferences.datetime";
   "system.preferences.timemachine";
   "system.preferences.energysaver";
   "system.preferences.network"].

(** An authorization database in which the five panes are locked. *)
Definition locked : gmap string (gmap string fval) :=
  <["system.preferences" := {["group" := FStr "admin"]}]>
  (<["system.preferences.datetime" := {["shared" := FBool false]}]>
  (<["system.preferences.timemachine" := {["group" := FStr "admin"]}]>
  (<["system.preferences.energysaver" := {["group" := FStr "admin"]}]>
  (<["system.preferences.network" := {["group" := FStr "admin"]}]> ∅)))).

(** A machine on which every call returns a foreign object, and
    [AuthorizationRightSet] the status 0. *)
Definition obliging : machine :=
  λ _ f _,
    if String.eqb f "AuthorizationRightSet" then Returned (FInt 0)
    else Returned (FObj "object").

(** A machine on which location services are off and the preferences of
    [locationd] cannot be written. *)
Definition locationd_refuses : machine :=
  λ _ f _,
    if String.eqb f "locationServicesEnabled" then Returned (FBool false)
    else if String.eqb f "getpwnam" then Returned (FInt 205)
    else if String.eqb f "CFPreferencesSetValue"
    then Raised (Exn "RuntimeError" "preferences are read-only")
    else Returned FNone.

End Functions.

(** ** Symbolic execution of one iteration *)

Ltac unfold_model :=
  unfold loop_body, branch_computer, branch_remotemanagement, branch_settings,
    branch_createmanifest, branch_beautifyadmin, branch_directorybinding,
    branch_munki, branch_sysprefs, advance, try_except, as_error, print, emit,
    call, set_global, del_global, get_global, argv_is, get_argv, set_argv,
    bind, ret.

(** One step: compute, or split on the next thing the state does not fix
    (an answer of the world, the class of an exception, the mode flag, a
    global that may be unbound). *)
Ltac exec_step w :=
  first
    [ progress cbn -[insert delete lookup length]
    | progress cbn [lookup list_lookup length]
    | rewrite lookup_insert_eq
    | rewrite lookup_insert_ne by done
    | match goal with
      | |- context [w ?t ?o] => destruct (w t o) eqn:?
      | |- context [isinstance_Exception ?e] =>
          destruct (isinstance_Exception e) eqn:?
      | |- context [isinstance_CalledProcessError ?e] =>
          destruct (isinstance_CalledProcessError e) eqn:?
      | |- context [String.eqb ?m "DEP"] => destruct (String.eqb m "DEP") eqn:?
      | |- context [@lookup string pyval _ _ ?x ?g] =>
          destruct (@lookup string pyval _ _ x g) eqn:?
      | |- context [decide ?P] => destruct (decide P); [|simpl in *; lia]
      end ].

(** A case the hypotheses on the world rule out. *)
Ltac absurd_world :=
  match goal with
  | Hc : contained ?w, H : ?w _ ?o = Raises ?e |- _ =>
      apply Hc in H; simpl in H; congruence
  | Ha : always_fails ?w ?o, H : ?w ?t ?o = Returns _ |- _ =>
      destruct (Ha t) as [? ?]; congruence
  end.

(** Closes a leaf of the execution: the result is read off, then each
    field of [iteration] is checked on it. *)
Ltac leaf :=
  eexists _, _, _; split; [reflexivity|];
  split; cbn [trace argv globals];
  [ rewrite <- ?app_assoc; reflexivity
  | reflexivity
  | intros ?; first [reflexivity | absurd_world]
  | intros x Hx; unfold scratch_names in Hx;
    rewrite !not_elem_of_cons in Hx; destruct_and!;
    rewrite ?lookup_delete_ne, ?lookup_insert_ne by done; reflexivity
  | unfold mode_of;
    repeat match goal with
           | H : String.eqb _ "DEP" = _ |- _ => rewrite H; clear H
           end;
    first [reflexivity | destruct (String.eqb _ "DEP"); reflexivity]
  | intros ? Ha; cbn [entry_op] in Ha;
    first [absurd_world
          | cbn [failure_line app]; rewrite !elem_of_cons; auto 10] ].

Lemma argv_shape (a : list string) m name flag :
  a !! 4 = Some m → a !! 5 = Some name → a !! 6 = Some flag →
  ∃ a0 a1 a2 a3 rest, a = a0 :: a1 :: a2 :: a3 :: m :: name :: flag :: rest.
Proof.
  intros H4 H5 H6.
  do 7 (destruct a as [|? a]; [done|]).
  simpl in *. simplify_eq. eauto 10.
Qed.

Lemma argv_has_mode (a : list string) flag :
  a !! 6 = Some flag → ∃ m name, a !! 4 = Some m ∧ a !! 5 = Some name.
Proof.
  intros H6. do 7 (destruct a as [|? a]; [done|]). eauto.
Qed.

(** Every branch, on every answer of the world: the iteration enters its
    stage only, leaves the globals outside [scratch_names] alone, and, when
    no exception leaves it, changes [argv] as the resolver says. *)
Lemma loop_body_stage w st s m flag :
  argv st !! 4 = Some m → argv st !! 5 = Some (stage_name s) →
  argv st !! 6 = Some flag →
  ∃ r st' tr', loop_body w st = (r, st') ∧ iteration w s m st r st' tr'.
Proof.
  intros H4 H5 H6. destruct st as [a g tr]. simpl in *.
  destruct (argv_shape _ _ _ _ H4 H5 H6) as (a0 & a1 & a2 & a3 & rest & ->).
  clear H4 H5 H6.
  destruct s; unfold_model; repeat exec_step w; leaf.
Qed.

(** In a world where every exception is contained, the iteration on a
    stage always completes. *)
Lemma iteration_completes w st s m flag :
  contained w →
  argv st !! 4 = Some m → argv st !! 5 = Some (stage_name s) →
  argv st !! 6 = Some flag →
  ∃ st', loop_body w st = (Ok (), st').
Proof.
  intros Hc H4 H5 H6.
  destruct (loop_body_stage w st s _ _ H4 H5 H6) as (r & st' & tr' & Hbody & Hit).
  exists st'. by rewrite Hbody, (it_contained _ _ _ _ _ _ _ Hit Hc).
Qed.

(** ** Names and stages *)

Lemma stage_of_name_name s : stage_of_name (stage_name s) = Some s.
Proof. by destruct s. Qed.

Lemma stage_of_name_Some name s : stage_of_name name = Some s → name = stage_name s.
Proof.
  unfold stage_of_name.
  repeat (destruct (String.eqb name _) eqn:E;
          [apply String.eqb_eq in E; intros; simplify_eq; done | clear E]).
  done.
Qed.

(** On a name none of the tests matches, the body does nothing: the chain
    has no [else]. *)
Lemma loop_body_unrecognized w st name :
  argv st !! 5 = Some name → stage_of_name name = None →
  loop_body w st = (Ok (), st).
Proof.
  intros H5 Hn. unfold stage_of_name in Hn.
  repeat (destruct (String.eqb name _) eqn:? in Hn; [discriminate|]).
  unfold loop_body, argv_is, get_argv, bind, ret.
  repeat (rewrite H5; cbn beta iota;
          match goal with
          | H : String.eqb name _ = false |- _ => rewrite H; clear H
          end; cbn beta iota).
  reflexivity.
Qed.

(** ** The loop *)

Lemma main_loop_head w fuel st flag :
  argv st !! 6 = Some flag →
  main_loop w (S fuel) st =
    if String.eqb flag "exit" then Exited st
    else match loop_body w st with
         | (Ok _, st') => main_loop w fuel st'
         | (Exc e, st') => Crashed e st'
         end.
Proof.
  intros H6. cbn [main_loop]. unfold argv_is, get_argv, bind, ret.
  rewrite H6. by destruct (String.eqb flag "exit").
Qed.

Lemma main_loop_no_flag w fuel st :
  argv st !! 6 = None →
  main_loop w (S fuel) st = Crashed (PyExn IndexError "list index out of range") st.
Proof.
  intros H6. cbn [main_loop]. unfold argv_is, get_argv, bind, ret.
  by rewrite H6.
Qed.

(** A run that ended is not changed by more fuel. *)
Lemma main_loop_more_fuel w n k st :
  terminated (main_loop w n st) = true →
  main_loop w (n + k) st = main_loop w n st.
Proof.
  revert st. induction n as [|n IH]; intros st; [done|].
  destruct (argv st !! 6) as [flag|] eqn:H6.
  - change (S n + k) with (S (n + k)).
    rewrite !(main_loop_head _ _ _ _ H6).
    destruct (String.eqb flag "exit"); [done|].
    destruct (loop_body w st) as [[[]|e] st']; [apply IH|done].
  - intros _. change (S n + k) with (S (n + k)). by rewrite !main_loop_no_flag.
Qed.

(** On an unrecognized name the state never changes, so the condition of
    the loop stays true. *)
Lemma unrecognized_spins w fuel st name flag :
  argv st !! 5 = Some name → stage_of_name name = None →
  argv st !! 6 = Some flag → flag ≠ "exit" →
  main_loop w fuel st = OutOfFuel st.
Proof.
  intros H5 Hn H6 Hflag. induction fuel as [|fuel IH]; [done|].
  rewrite (main_loop_head _ _ _ _ H6).
  apply String.eqb_neq in Hflag. rewrite Hflag.
  by rewrite (loop_body_unrecognized _ _ _ H5 Hn).
Qed.

Lemma stages_from_unfold s :
  stages_from s =
    s :: match successor s with Some s' => stages_from s' | None => [] end.
Proof. by destruct s. Qed.

Lemma stages_run_app tr1 tr2 :
  stages_run (tr1 ++ tr2) = stages_run tr1 ++ stages_run tr2.
Proof. apply omap_app. Qed.

Lemma argv_after_advance (a : list string) m name flag next :
  a !! 4 = Some m → a !! 5 = Some name → a !! 6 = Some flag →
  <[5 := next]> a !! 4 = Some m ∧ <[5 := next]> a !! 5 = Some next ∧
  <[5 := next]> a !! 6 = Some flag.
Proof.
  intros H4 H5 H6.
  destruct (argv_shape _ _ _ _ H4 H5 H6) as (? & ? & ? & ? & ? & ->). done.
Qed.

Lemma argv_after_exit (a : list string) name flag :
  a !! 5 = Some name → a !! 6 = Some flag →
  <[6 := "exit"]> a !! 5 = Some name ∧ <[6 := "exit"]> a !! 6 = Some "exit".
Proof.
  intros H5 H6. split.
  - by rewrite list_lookup_insert_ne.
  - apply list_lookup_insert_eq. by eapply lookup_lt_Some.
Qed.

(** A chained run from any stage, in a world where every exception is
    contained: it goes through the stages from [s] on, in order, and exits;
    a stage whose first call always raises has its failure line printed. *)
Lemma chained_run w st s flag :
  contained w →
  argv st !! 4 = Some "DEP" → argv st !! 5 = Some (stage_name s) →
  argv st !! 6 = Some flag → flag ≠ "exit" →
  ∃ st' tr',
    main_loop w (S (length (stages_from s))) st = Exited st' ∧
    trace st' = trace st ++ tr' ∧
    stages_run tr' = stages_from s ∧
    (∀ s', s' ∈ stages_from s → always_fails w (entry_op s') →
           Print (failure_line s') ∈ tr').
Proof.
  intros Hc. remember (length (stages_from s)) as n eqn:Hn.
  revert s st Hn. induction n as [|n IH]; intros s st Hn H4 H5 H6 Hflag.
  { by rewrite stages_from_unfold in Hn. }
  destruct (loop_body_stage w st s _ _ H4 H5 H6) as (r & st1 & tr1 & Hbody & Hit).
  pose proof (it_contained _ _ _ _ _ _ _ Hit Hc) as ->.
  pose proof (it_argv _ _ _ _ _ _ _ Hit) as Hargv.
  change (mode_of "DEP") with Chained in Hargv. cbn [ModeResolver] in Hargv.
  rewrite (main_loop_head _ _ _ _ H6), (proj2 (String.eqb_neq _ _) Hflag), Hbody.
  rewrite stages_from_unfold in Hn |- *.
  destruct (successor s) as [s'|] eqn:Hs; cbn [apply_decision] in Hargv.
  - destruct (argv_after_advance _ _ _ _ (stage_name s') H4 H5 H6) as (H4' & H5' & H6').
    rewrite <- Hargv in H4', H5', H6'.
    destruct (IH s' st1) as (st' & tr2 & Hrun & Htr & Hstages & Hfail); try done.
    { simpl in Hn. lia. }
    exists st', (tr1 ++ tr2). rewrite Hrun. split; [done|]. split.
    { by rewrite Htr, (it_trace _ _ _ _ _ _ _ Hit), app_assoc. }
    split.
    { by rewrite stages_run_app, (it_stage _ _ _ _ _ _ _ Hit), Hstages. }
    intros s'' [->|Hin]%elem_of_cons Hfails; apply elem_of_app.
    + left. by apply (it_failed _ _ _ _ _ _ _ Hit).
    + right. by apply Hfail.
  - destruct (argv_after_exit _ _ _ H5 H6) as [_ H6'].
    rewrite <- Hargv in H6'.
    exists st1, tr1.
    rewrite (main_loop_head _ _ _ _ H6'). split; [done|]. split.
    { apply (it_trace _ _ _ _ _ _ _ Hit). }
    split.
    { apply (it_stage _ _ _ _ _ _ _ Hit). }
    intros s'' ->%list_elem_of_singleton Hfails.
    by apply (it_failed _ _ _ _ _ _ _ Hit).
Qed.

Lemma ModeResolver_Advance s m s' :
  ModeResolver s m = Advance s' → successor s = Some s'.
Proof.
  unfold ModeResolver. destruct m; [|done].
  destruct (successor s); naive_solver.
Qed.

(** Whatever the world answers, a run from a stage ends within as many
    iterations as there are stages left, and the stages it enters are an
    initial part of them. *)
Lemma run_terminates w st s :
  argv st !! 5 = Some (stage_name s) →
  ∃ tr',
    terminated (main_loop w (S (length (stages_from s))) st) = true ∧
    trace (final_state (main_loop w (S (length (stages_from s))) st))
      = trace st ++ tr' ∧
    stages_run tr' `prefix_of` stages_from s.
Proof.
  remember (length (stages_from s)) as n eqn:Hn.
  revert s st Hn. induction n as [|n IH]; intros s st Hn H5.
  { by rewrite stages_from_unfold in Hn. }
  destruct (argv st !! 6) as [flag|] eqn:H6.
  2: { rewrite main_loop_no_flag by done. exists [].
       rewrite app_nil_r. split_and!; [done..|apply prefix_nil]. }
  rewrite (main_loop_head _ _ _ _ H6).
  destruct (String.eqb flag "exit") eqn:Hflag.
  { exists []. rewrite app_nil_r. split_and!; [done..|apply prefix_nil]. }
  destruct (argv_has_mode _ _ H6) as (m & name & H4 & H5').
  destruct (loop_body_stage w st s _ _ H4 H5 H6) as (r & st1 & tr1 & Hbody & Hit).
  pose proof (it_argv _ _ _ _ _ _ _ Hit) as Hargv.
  pose proof (it_trace _ _ _ _ _ _ _ Hit) as Htr1.
  pose proof (it_stage _ _ _ _ _ _ _ Hit) as Hst1.
  rewrite Hbody. rewrite stages_from_unfold in Hn |- *.
  destruct r as [[]|e].
  2: { exists tr1. split_and!; [done..|]. rewrite Hst1. apply prefix_cons, prefix_nil. }
  destruct (ModeResolver s (mode_of m)) as [s'|] eqn:Hd; cbn [apply_decision] in Hargv.
  - rewrite (ModeResolver_Advance _ _ _ Hd) in Hn |- *.
    destruct (argv_after_advance _ _ _ _ (stage_name s') H4 H5 H6) as (_ & H5'' & _).
    rewrite <- Hargv in H5''.
    destruct (IH s' st1) as (tr2 & Hterm & Htr & Hpre); try done.
    { simpl in Hn. lia. }
    simpl in Hn. replace (length (stages_from s')) with n in * by lia.
    exists (tr1 ++ tr2). split; [done|]. split.
    { by rewrite Htr, Htr1, app_assoc. }
    rewrite stages_run_app, Hst1. simpl. by apply prefix_cons.
  - destruct (argv_after_exit _ _ _ H5 H6) as [_ H6'].
    rewrite <- Hargv in H6'. rewrite (main_loop_head _ _ _ _ H6').
    exists tr1. split_and!; [done..|]. rewrite Hst1. apply prefix_cons, prefix_nil.
Qed.

(** ** What the loop writes *)

Lemma frame_refl st : frame st st.
Proof. by split_and!. Qed.

Lemma frame_trans st1 st2 st3 : frame st1 st2 → frame st2 st3 → frame st1 st3.
Proof.
  intros (Hl1 & Ha1 & Hg1) (Hl2 & Ha2 & Hg2). split_and!.
  - congruence.
  - intros i ??. rewrite Ha2, Ha1; done.
  - intros x ?. rewrite Hg2, Hg1; done.
Qed.

Lemma loop_body_frame w st flag r st' :
  argv st !! 6 = Some flag → loop_body w st = (r, st') → frame st st'.
Proof.
  intros H6 Hbody.
  destruct (argv_has_mode _ _ H6) as (m & name & H4 & H5).
  destruct (stage_of_name name) as [s|] eqn:Hname.
  - apply stage_of_name_Some in Hname as ->.
    destruct (loop_body_stage w st s _ _ H4 H5 H6) as (r1 & st1 & tr1 & Hbody1 & Hit).
    rewrite Hbody in Hbody1. simplify_eq.
    pose proof (it_argv _ _ _ _ _ _ _ Hit) as Hargv.
    split_and!; [..|apply Hit]; rewrite Hargv.
    + destruct r1; [|done].
      destruct (ModeResolver _ _); simpl; by rewrite length_insert.
    + intros i ??. destruct r1; [|done].
      destruct (ModeResolver _ _); simpl; by rewrite list_lookup_insert_ne.
  - rewrite (loop_body_unrecognized _ _ _ H5 Hname) in Hbody.
    simplify_eq. apply frame_refl.
Qed.

Lemma main_loop_frame w fuel st : frame st (final_state (main_loop w fuel st)).
Proof.
  revert st. induction fuel as [|fuel IH]; intros st; [apply frame_refl|].
  destruct (argv st !! 6) as [flag|] eqn:H6.
  2: { rewrite main_loop_no_flag by done. apply frame_refl. }
  rewrite (main_loop_head _ _ _ _ H6).
  destruct (String.eqb flag "exit"); [apply frame_refl|].
  destruct (loop_body w st) as [r st1] eqn:Hbody.
  pose proof (loop_body_frame _ _ _ _ _ H6 Hbody) as Hf.
  destruct r as [[]|e]; [|done].
  eapply frame_trans; [done|apply IH].
Qed.

(** ** Facts about runs *)
Lemma run_log_stages tr : (run_log tr).*1 = stages_run tr.
Proof.
  unfold run_log. rewrite <- list_fmap_compose. apply list_fmap_id.
Qed.

Lemma recognized_false name : recognized name = false → stage_of_name name = None.
Proof. unfold recognized. by destruct (stage_of_name name). Qed.

Lemma contained_healthy : contained healthy.
Proof. intros tr o e H. by destruct o. Qed.

Lemma contained_binding_refused : contained binding_refused.
Proof. intros tr o e H. destruct o; simplify_eq/=; done. Qed.


Lemma failure_line_nonempty s : failure_line s ≠ "".
Proof. by destruct s. Qed.

Lemma stages_from_length s : S (length (stages_from s)) ≤ 9.
Proof. destruct s; simpl; lia. Qed.

Lemma main_loop_fuel_ge w n fuel st :
  terminated (main_loop w n st) = true → n ≤ fuel →
  main_loop w fuel st = main_loop w n st.
Proof.
  intros Ht Hle. replace fuel with (n + (fuel - n)) by lia.
  by apply main_loop_more_fuel.
Qed.

Lemma decision_taken_apply (a : list string) m name flag d :
  a !! 4 = Some m → a !! 5 = Some name → a !! 6 = Some flag → flag ≠ "exit" →
  decision_taken (apply_decision d a) = Some d.
Proof.
  intros H4 H5 H6 Hflag. unfold decision_taken.
  destruct d as [s'|]; cbn [apply_decision].
  - destruct (argv_after_advance _ _ _ _ (stage_name s') H4 H5 H6) as (_ & -> & ->).
    rewrite (proj2 (String.eqb_neq _ _) Hflag).
    by rewrite stage_of_name_name.
  - destruct (argv_after_exit _ _ _ H5 H6) as [_ ->]. done.
Qed.

Lemma config_not_scratch x : x ∈ config_names → x ∉ scratch_names.
Proof.
  unfold config_names, scratch_names. intros Hx Hs.
  rewrite !elem_of_cons, elem_of_nil in Hx, Hs.
  destruct_or!; simplify_eq.
Qed.

Lemma NoDup_stages_from s : NoDup (stages_from s).
Proof.
  destruct s;
    apply (bool_decide_unpack (NoDup _)); vm_compute; exact I.
Qed.

(** When every exception is contained, a run from a stage leaves the loop
    through its condition, in either mode. *)
Lemma contained_run_exits w st s flag :
  contained w →
  argv st !! 5 = Some (stage_name s) → argv st !! 6 = Some flag →
  ∃ st', main_loop w (S (length (stages_from s))) st = Exited st'.
Proof.
  intros Hc H5 H6.
  destruct (decide (flag = "exit")) as [->|Hflag].
  { exists st. by rewrite (main_loop_head _ _ _ _ H6). }
  destruct (argv_has_mode _ _ H6) as (m & name & H4 & _).
  destruct (String.eqb m "DEP") eqn:Hm.
  - apply String.eqb_eq in Hm as ->.
    destruct (chained_run w st s flag Hc H4 H5 H6 Hflag) as (st' & _ & Hrun & _).
    by exists st'.
  - destruct (loop_body_stage w st s _ _ H4 H5 H6) as (r & st1 & tr1 & Hbody & Hit).
    pose proof (it_argv _ _ _ _ _ _ _ Hit) as Hargv.
    rewrite (it_contained _ _ _ _ _ _ _ Hit Hc) in Hbody, Hargv.
    unfold mode_of in Hargv. rewrite Hm in Hargv.
    cbn [ModeResolver apply_decision] in Hargv.
    destruct (argv_after_exit _ _ _ H5 H6) as [_ H6']. rewrite <- Hargv in H6'.
    exists st1. rewrite stages_from_unfold. cbn [length].
    rewrite (main_loop_head _ _ _ _ H6), (proj2 (String.eqb_neq _ _) Hflag), Hbody.
    by rewrite (main_loop_head _ _ _ _ H6').
Qed.

(** A failure of the [directorybinding] stage that its handler catches
    does not stop a chained run.  In chained mode from [remotemanagement],
    when the jamf policy command always exits with a non-zero status
    ([check_output] raises [CalledProcessError]) and the other calls return
    or raise exceptions their handlers catch, the run exits after
    [sysprefs]; seven stages are entered, and the entry of
    [directorybinding] in the run log is a failure. *)
Lemma chained_run_past_refused_binding w st flag :
  contained w → always_fails w jamf_policy →
  argv st !! 4 = Some "DEP" → argv st !! 5 = Some "remotemanagement" →
  argv st !! 6 = Some flag → flag ≠ "exit" →
  ∃ st' tr',
    main_loop w 8 st = Exited st' ∧
    trace st' = trace st ++ tr' ∧
    stages_run tr' =
      [remotemanagement; settings; createmanifest; beautifyadmin;
       directorybinding; munki; sysprefs] ∧
    length (run_log tr') = 7 ∧
    last (run_log tr') = Some (sysprefs, outcome_in tr' sysprefs) ∧
    run_log tr' !! 4 =
      Some (directorybinding, Failure (failure_line directorybinding)).
Proof.
  intros Hc Hfails H4 H5 H6 Hflag.
  destruct (chained_run w st remotemanagement flag Hc H4 H5 H6 Hflag)
    as (st' & tr' & Hrun & Htr & Hstages & Hfail).
  exists st', tr'. split_and!; [done..| | |].
  - unfold run_log. by rewrite length_fmap, Hstages.
  - unfold run_log. by rewrite Hstages.
  - assert (Print (failure_line directorybinding) ∈ tr') as Hin.
    { apply Hfail; [|done]. unfold stages_from. simpl. set_solver. }
    unfold run_log. rewrite Hstages. simpl. unfold outcome_in at 1.
    by rewrite bool_decide_eq_true_2.
Qed.

Example chained_run_past_refused_binding_example :
  ∃ st' tr',
    main_loop binding_refused 8 (start "DEP" "remotemanagement") = Exited st' ∧
    trace st' = trace (start "DEP" "remotemanagement") ++ tr' ∧
    stages_run tr' =
      [remotemanagement; settings; createmanifest; beautifyadmin;
       directorybinding; munki; sysprefs] ∧
    length (run_log tr') = 7 ∧
    last (run_log tr') = Some (sysprefs, outcome_in tr' sysprefs) ∧
    run_log tr' !! 4 =
      Some (directorybinding, Failure (failure_line directorybinding)).
Proof.
  apply (chained_run_past_refused_binding binding_refused
           (start "DEP" "remotemanagement") "").
  - apply contained_binding_refused.
  - intros tr. eexists. reflexivity.
  - reflexivity.
  - reflexivity.
  - reflexivity.
  - discriminate.
Qed.

(** ** What the loop prints for a stage *)



















(** ** The properties of the pipeline *)




(** C2.  The [directorybinding] branch on an exception of [check_output]
    that is not a [CalledProcessError]: its [except CalledProcessError]
    clause does not match, so the exception leaves the iteration and then
    the loop, ending the run; nothing is printed for it and [argv] is left
    as it was. *)
Theorem directorybinding_exception_escapes w st m flag e :
  argv st !! 4 = Some m → argv st !! 5 = Some "directorybinding" →
  argv st !! 6 = Some flag → flag ≠ "exit" →
  w (trace st ++ [Print "• Bind to EAD"]) jamf_policy = Raises e →
  isinstance_CalledProcessError e = false →
  let st' := State (argv st) (globals st)
                   (trace st ++ [Print "• Bind to EAD"; Call jamf_policy]) in
  loop_body w st = (Exc e, st') ∧
  main_loop w 1 st = Crashed e st' ∧
  outcome_in (trace st ++ [Print "• Bind to EAD"; Call jamf_policy]) directorybinding
    = outcome_in (trace st) directorybinding.
Proof.
  intros H4 H5 H6 Hflag Hw He st'.
  assert (loop_body w st = (Exc e, st')) as Hbody.
  { subst st'. destruct st as [a g tr]. simpl in *.
    destruct (argv_shape _ _ _ _ H4 H5 H6) as (a0 & a1 & a2 & a3 & rest & ->).
    unfold_model; repeat exec_step w; try congruence.
    simplify_eq. by rewrite <- app_assoc. }
  split_and!; [done| |].
  - by rewrite (main_loop_head _ _ _ _ H6), (proj2 (String.eqb_neq _ _) Hflag), Hbody.
  - unfold outcome_in. apply (f_equal (λ b : bool, if b then _ else _)).
    apply bool_decide_ext. rewrite elem_of_app, !elem_of_cons, elem_of_nil.
    cbn [failure_line].
    split; [intros [?|[?|[?|[]]]]; [done|discriminate..] | by left].
Qed.

Lemma directorybinding_exception_escapes_witness :
  loop_body jamf_missing (start "DEP" "directorybinding") =
    (Exc (PyExn FileNotFoundError
            "[Errno 2] No such file or directory: '/usr/local/bin/jamf'"),
     State (argv (start "DEP" "directorybinding"))
           (globals (start "DEP" "directorybinding"))
           [Print "• Bind to EAD"; Call jamf_policy]) ∧
  main_loop jamf_missing 1 (start "DEP" "directorybinding") =
    Crashed (PyExn FileNotFoundError
               "[Errno 2] No such file or directory: '/usr/local/bin/jamf'")
            (State (argv (start "DEP" "directorybinding"))
                   (globals (start "DEP" "directorybinding"))
                   [Print "• Bind to EAD"; Call jamf_policy]) ∧
  outcome_in [Print "• Bind to EAD"; Call jamf_policy] directorybinding
    = outcome_in [] directorybinding.
Proof.
  apply (directorybinding_exception_escapes jamf_missing
           (start "DEP" "directorybinding") "DEP" "").
  - reflexivity.
  - reflexivity.
  - reflexivity.
  - discriminate.
  - reflexivity.
  - reflexivity.
Defined.

(** The two calls after the [try] of the [sysprefs] branch have no handler
    either: an exception of [location_services] leaves the loop before
    [argv[6]] is set. *)
Example sysprefs_location_services_escapes :
  ∃ st',
    main_loop locationd_broken 2 (start "" "sysprefs") =
      Crashed (PyExn RuntimeError "CoreLocation is not available") st' ∧
    argv st' !! 6 = Some "".
Proof. eexists. split; vm_compute; reflexivity. Qed.

(** C3, as stated, fails: on the unrecognized name [bogus] the run never
    reports an error, however long it is left running. *)
Lemma unrecognized_stage_reports_no_error :
  recognized "bogus" = false ∧
  ∀ fuel,
    reports_error (main_loop healthy fuel (start "DEP" "bogus")) = false ∧
    trace (final_state (main_loop healthy fuel (start "DEP" "bogus"))) = [].
Proof.
  split; [reflexivity|]. intros fuel.
  by rewrite (unrecognized_spins healthy fuel (start "DEP" "bogus") "bogus" "").
Qed.

(** C3, amended.  When [argv[5]] is not one of the eight stage names, no
    call is ever made and nothing is printed, so the run log stays as it
    was (empty, for a fresh run); and no error is reported: no exception
    leaves the loop. *)
Theorem unrecognized_stage_runs_nothing w fuel st name flag :
  argv st !! 5 = Some name → recognized name = false →
  argv st !! 6 = Some flag →
  final_state (main_loop w fuel st) = st ∧
  run_log (trace (final_state (main_loop w fuel st))) = run_log (trace st) ∧
  reports_error (main_loop w fuel st) = false.
Proof.
  intros H5 Hn%recognized_false H6.
  assert (final_state (main_loop w fuel st) = st ∧
          reports_error (main_loop w fuel st) = false) as [Hst Herr].
  { destruct (decide (flag = "exit")) as [->|Hflag].
    - destruct fuel as [|fuel]; [done|]. by rewrite (main_loop_head _ _ _ _ H6).
    - by rewrite (unrecognized_spins _ _ _ _ _ H5 Hn H6 Hflag). }
  by rewrite Hst.
Qed.

Lemma unrecognized_stage_runs_nothing_witness :
  final_state (main_loop healthy 50 (start "DEP" "bogus")) = start "DEP" "bogus" ∧
  run_log (trace (final_state (main_loop healthy 50 (start "DEP" "bogus"))))
    = run_log (trace (start "DEP" "bogus")) ∧
  reports_error (main_loop healthy 50 (start "DEP" "bogus")) = false.
Proof.
  apply (unrecognized_stage_runs_nothing healthy 50 (start "DEP" "bogus")
           "bogus" "").
  - reflexivity.
  - reflexivity.
  - reflexivity.
Defined.

(** C4.  A chained run from [computer] on a machine without the jamf
    binary: the [FileNotFoundError] of the [directorybinding] stage leaves
    the loop; no failure line is printed for the stage and [munki] and
    [sysprefs] are never entered. *)
Theorem chained_run_aborted_by_missing_jamf :
  ∃ st',
    main_loop jamf_missing 9 (start "DEP" "computer") =
      Crashed (PyExn FileNotFoundError
                 "[Errno 2] No such file or directory: '/usr/local/bin/jamf'") st' ∧
    stages_run (trace st') =
      [computer; remotemanagement; settings; createmanifest; beautifyadmin;
       directorybinding] ∧
    outcome_in (trace st') directorybinding = Success ∧
    argv st' !! 5 = Some "directorybinding".
Proof.
  eexists. split; [vm_compute; reflexivity|]. split_and!; vm_compute; reflexivity.
Qed.




(** C6.  The script at an unrecognized stage name, with [argv[6]] not yet
    [exit]: no branch matches, nothing sets [argv[6]], and the loop is still
    running after any number of iterations, in the state it started in.  It
    makes no call and prints nothing, but it never ends. *)
Theorem unrecognized_stage_never_exits w fuel st name flag :
  argv st !! 5 = Some name → recognized name = false →
  argv st !! 6 = Some flag → flag ≠ "exit" →
  main_loop w fuel st = OutOfFuel st.
Proof.
  intros H5 Hn%recognized_false H6 Hflag. by apply (unrecognized_spins _ _ _ name flag).
Qed.

Lemma unrecognized_stage_never_exits_witness :
  main_loop healthy 1000 (start "DEP" "bogus") = OutOfFuel (start "DEP" "bogus").
Proof.
  apply (unrecognized_stage_never_exits healthy 1000 (start "DEP" "bogus")
           "bogus" "").
  - reflexivity.
  - reflexivity.
  - reflexivity.
  - discriminate.
Defined.

(** C7.  A chained run from [remotemanagement] in which the
    [directorybinding] stage fails because the jamf binary is missing: the
    [FileNotFoundError] leaves the loop.  Five stages are entered, the last
    of them [directorybinding]; [sysprefs] is never reached and no failure
    line is printed for [directorybinding]. *)
Theorem chained_run_stops_at_failed_binding :
  ∃ st',
    main_loop jamf_missing 8 (start "DEP" "remotemanagement") =
      Crashed (PyExn FileNotFoundError
                 "[Errno 2] No such file or directory: '/usr/local/bin/jamf'") st' ∧
    stages_run (trace st') =
      [remotemanagement; settings; createmanifest; beautifyadmin;
       directorybinding] ∧
    last (run_log (trace st')) = Some (directorybinding, Success) ∧
    length (run_log (trace st')) = 5.
Proof.
  eexists. split; [vm_compute; reflexivity|]. split_and!; vm_compute; reflexivity.
Qed.

(** C8.  The decision an iteration takes is a function of the stage and of
    the mode only: two iterations on the same stage and mode flag, in any two
    worlds (so with any outcomes of the calls) and from any two states (any
    globals, trace and other elements of [argv]), that both complete take
    the same decision, the one [ModeResolver] gives.  [iteration_completes]
    shows that an iteration completes whenever exceptions are contained. *)
Theorem advancement_depends_on_stage_and_mode
    w1 w2 st1 st2 st1' st2' s m flag1 flag2 :
  argv st1 !! 4 = Some m → argv st2 !! 4 = Some m →
  argv st1 !! 5 = Some (stage_name s) → argv st2 !! 5 = Some (stage_name s) →
  argv st1 !! 6 = Some flag1 → flag1 ≠ "exit" →
  argv st2 !! 6 = Some flag2 → flag2 ≠ "exit" →
  loop_body w1 st1 = (Ok (), st1') → loop_body w2 st2 = (Ok (), st2') →
  decision_taken (argv st1') = Some (ModeResolver s (mode_of m)) ∧
  decision_taken (argv st2') = decision_taken (argv st1').
Proof.
  intros H4 H4' H5 H5' H6 Hf1 H6' Hf2 Hb1 Hb2.
  destruct (loop_body_stage w1 st1 s _ _ H4 H5 H6) as (r1 & ? & tr1 & Hbody1 & Hit1).
  destruct (loop_body_stage w2 st2 s _ _ H4' H5' H6') as (r2 & ? & tr2 & Hbody2 & Hit2).
  rewrite Hb1 in Hbody1. rewrite Hb2 in Hbody2. simplify_eq.
  rewrite (it_argv _ _ _ _ _ _ _ Hit1), (it_argv _ _ _ _ _ _ _ Hit2).
  rewrite (decision_taken_apply _ m (stage_name s) flag1) by done.
  by rewrite (decision_taken_apply _ m (stage_name s) flag2).
Qed.

Lemma advancement_depends_on_stage_and_mode_witness :
  decision_taken (argv (loop_body healthy (start "DEP" "directorybinding")).2)
    = Some (ModeResolver directorybinding (mode_of "DEP")) ∧
  decision_taken
    (argv (loop_body binding_refused
             (State ["x"; ""; ""; ""; "DEP"; "directorybinding"; "no"] ∅
                    [Print "earlier"])).2)
    = decision_taken (argv (loop_body healthy (start "DEP" "directorybinding")).2).
Proof.
  apply (advancement_depends_on_stage_and_mode healthy binding_refused
           (start "DEP" "directorybinding")
           (State ["x"; ""; ""; ""; "DEP"; "directorybinding"; "no"] ∅
                  [Print "earlier"])
           _ _ directorybinding "DEP" "" "no").
  - reflexivity.
  - reflexivity.
  - reflexivity.
  - reflexivity.
  - reflexivity.
  - discriminate.
  - reflexivity.
  - discriminate.
  - vm_compute. reflexivity.
  - vm_compute. reflexivity.
Defined.

(** C9, as stated, fails: [argv[5]] and [argv[6]] are not the only cells
    the loop writes.  A single-mode run of [sysprefs] binds the global
    [macOS_version], which was unbound before. *)
Lemma sysprefs_branch_binds_globals :
  globals (start "" "sysprefs") !! "macOS_version" = None ∧
  globals (final_state (main_loop healthy 2 (start "" "sysprefs")))
    !! "macOS_version" = Some (VForeign "StrictVersion ('10.15.6')").
Proof. split; vm_compute; reflexivity. Qed.

(** C9, amended.  Through a run of any length, from any state, the loop
    never changes a configuration variable ([prefix], [computer_name],
    [local_node], [mwa_address], [basic_auth_string_mwa], [admin_list],
    [admins_to_prepare]) nor the mode flag [argv[4]]; in [argv] it writes
    the elements 5 and 6 only, and among the module globals only the names of
    [scratch_names]. *)
Theorem loop_frame w fuel st :
  let st' := final_state (main_loop w fuel st) in
  (∀ x, x ∈ config_names → globals st' !! x = globals st !! x) ∧
  argv st' !! 4 = argv st !! 4 ∧
  length (argv st') = length (argv st) ∧
  (∀ i, i ≠ 5 → i ≠ 6 → argv st' !! i = argv st !! i) ∧
  (∀ x, x ∉ scratch_names → globals st' !! x = globals st !! x).
Proof.
  destruct (main_loop_frame w fuel st) as (Hlen & Hargv & Hglob).
  cbv zeta. split_and!; [|by apply Hargv|done..].
  intros x Hx. by apply Hglob, config_not_scratch.
Qed.

(** C10.  From any of the eight stages, in either mode and whatever the
    calls answer, the loop ends (through its condition or by an exception
    leaving it) within nine evaluations of its condition; it has entered at
    most eight stages by then, none of them twice.  When every exception is
    caught by its handler, the loop ends through its condition. *)
Theorem main_loop_terminates_within_eight_stages w st s :
  argv st !! 5 = Some (stage_name s) →
  ∃ r tr',
    (∀ fuel, 9 ≤ fuel → main_loop w fuel st = r) ∧
    terminated r = true ∧
    trace (final_state r) = trace st ++ tr' ∧
    length (stages_run tr') ≤ 8 ∧
    NoDup (stages_run tr') ∧
    (contained w → is_Some (argv st !! 6) → ∃ st', r = Exited st').
Proof.
  intros H5. destruct (run_terminates w st s H5) as (tr' & Hterm & Htr & Hpre).
  exists (main_loop w (S (length (stages_from s))) st), tr'.
  split_and!; [|done..| | |].
  - intros fuel Hfuel. apply main_loop_fuel_ge; [done|].
    pose proof (stages_from_length s). lia.
  - apply prefix_length in Hpre. pose proof (stages_from_length s). lia.
  - destruct Hpre as [k Hk]. pose proof (NoDup_stages_from s) as Hnd.
    rewrite Hk in Hnd. by apply NoDup_app in Hnd as [? _].
  - intros Hc [flag H6]. by apply (contained_run_exits _ _ _ flag).
Qed.

Lemma main_loop_terminates_within_eight_stages_witness :
  ∃ r tr',
    (∀ fuel, 9 ≤ fuel → main_loop jamf_missing fuel (start "DEP" "settings") = r) ∧
    terminated r = true ∧
    trace (final_state r) = trace (start "DEP" "settings") ++ tr' ∧
    length (stages_run tr') ≤ 8 ∧
    NoDup (stages_run tr') ∧
    (contained jamf_missing → is_Some (argv (start "DEP" "settings") !! 6) →
     ∃ st', r = Exited st').
Proof.
  apply (main_loop_terminates_within_eight_stages jamf_missing
           (start "DEP" "settings") settings).
  reflexivity.
Defined.

(** ** The two calls after the [try] of the [sysprefs] branch *)

(** Closes a leaf: the result is read off, or the exception that escaped
    was not an ordinary one. *)
Ltac escaped Hord :=
  first
    [ by eexists
    | exfalso;
      match goal with
      | Hq : _ _ _ = Raises ?x, Hf : isinstance_Exception ?x = false |- _ =>
          apply Hord in Hq; congruence
      end ].

(** X17.  The [sysprefs] branch calls [location_services] and
    [autotimezone] after its [try], with no handler around them.  On a
    machine whose calls raise nothing but exceptions that derive from
    [Exception], an exception of [location_services], or of [autotimezone]
    when [location_services] returns, leaves the iteration and ends the
    run, whatever the mode: [argv] is left as it was, so [argv[6]] is not
    set to [exit]. *)
Theorem sysprefs_unprotected_calls w st m flag e :
  argv st !! 4 = Some m → argv st !! 5 = Some "sysprefs" →
  argv st !! 6 = Some flag → flag ≠ "exit" →
  (∀ tr o e', w tr o = Raises e' → isinstance_Exception e' = true) →
  (∀ tr, w tr location_services = Raises e) ∨
  (∀ tr, ∃ v, w tr location_services = Returns v) ∧
  (∀ tr, w tr autotimezone = Raises e) →
  ∃ st', loop_body w st = (Exc e, st') ∧
         main_loop w 1 st = Crashed e st' ∧
         argv st' = argv st.
Proof.
  intros H4 H5 H6 Hflag Hord Hw.
  assert (∃ st', loop_body w st = (Exc e, st') ∧ argv st' = argv st)
    as (st' & Hbody & Hargv).
  { destruct st as [a g tr]. simpl in *.
    destruct (argv_shape _ _ _ _ H4 H5 H6) as (a0 & a1 & a2 & a3 & rest & ->).
    clear H4 H5 H6.
    destruct Hw as [Hl|[Hl Ha]].
    - unfold_model; repeat first [rewrite Hl | exec_step w]; escaped Hord.
    - unfold_model;
        repeat first
          [ rewrite Ha
          | match goal with |- context [w ?t location_services] =>
              let H := fresh in destruct (Hl t) as [? H]; rewrite H; clear H end
          | exec_step w ]; escaped Hord. }
  exists st'. split_and!; [done| |done].
  by rewrite (main_loop_head _ _ _ _ H6), (proj2 (String.eqb_neq _ _) Hflag), Hbody.
Qed.

Lemma sysprefs_unprotected_calls_witness :
  ∃ st', loop_body locationd_broken (start "DEP" "sysprefs") =
           (Exc (PyExn RuntimeError "CoreLocation is not available"), st') ∧
         main_loop locationd_broken 1 (start "DEP" "sysprefs") =
           Crashed (PyExn RuntimeError "CoreLocation is not available") st' ∧
         argv st' = argv (start "DEP" "sysprefs").
Proof.
  apply (sysprefs_unprotected_calls locationd_broken (start "DEP" "sysprefs") "DEP" "").
  - reflexivity.
  - reflexivity.
  - reflexivity.
  - discriminate.
  - intros tr o e'. unfold locationd_broken, healthy.
    destruct o; intros [= <-]; reflexivity.
  - left. intros tr. reflexivity.
Defined.

(** * The stage functions: what each one does on every machine *)

Section FunctionFacts.
Import Functions.
#[local] Open Scope fn_scope.

(** ** Symbolic execution of a function *)

Ltac unfold_functions :=
  unfold set_computer_name, harden_ard, harden_ssh, settings_setup,
         create_munki_manifest, location_services, autotimezone,
         munki_download_and_install, beautify_account,
         with_open, record_with, method, lift,
         check_output, seteuid, pw_uid, gr_gid, extcall, try_except, try_pass,
         print, bind, ret.

(** One step: compute, or split on the next thing the state does not fix
    (an answer of the machine, the class of an exception, a test). *)
Ltac run_step mach :=
  first
    [ progress cbn -[insert delete lookup String.append join contains fmap map
                     getattr subscript first_item decode download_url admin_item]
    | match goal with
      | |- context [mach ?h ?f ?a] => destruct (mach h f a)
      | |- context [isinstance_Exception ?e] => destruct (isinstance_Exception e) eqn:?
      | |- context [is_none ?v] => destruct (is_none v) eqn:?
      | |- context [is_False ?v] => destruct (is_False v) eqn:?
      | |- context [Nat.eqb ?v 2] => destruct (Nat.eqb v 2) eqn:?
      | |- context [contains ?a ?b] => destruct (contains a b) eqn:?
      | |- context [decode ?v] => destruct (decode v) eqn:?
      | |- context [download_url ?v] => destruct (download_url v) eqn:?
      | |- context [getattr ?v ?f] => destruct (getattr v f) as [[]|?] eqn:?
      | |- context [subscript ?v ?f] => destruct (subscript v f) eqn:?
      | |- context [first_item ?v] => destruct (first_item v) eqn:?
      end ].

(** Reads what the run added to the trace off the state reached. *)
Ltac new_trace :=
  cbn [log euid rights];
  eexists; split;
    [rewrite <- ?app_assoc; cbn [app];
     first [reflexivity | symmetry; apply app_nil_r]|].

Ltac caught :=
  repeat match goal with H : isinstance_Exception _ = _ |- _ => rewrite H end.


(** The readers of a trace go through concatenation. *)
Lemma commands_app tr1 tr2 : commands (tr1 ++ tr2) = commands tr1 ++ commands tr2.
Proof. apply omap_app. Qed.

Lemma succeeded_app tr1 tr2 :
  succeeded (tr1 ++ tr2) = succeeded tr1 ++ succeeded tr2.
Proof. apply omap_app. Qed.

Lemma memberships_app tr1 tr2 :
  memberships (tr1 ++ tr2) = memberships tr1 ++ memberships tr2.
Proof. apply omap_app. Qed.

Lemma raised_app tr1 tr2 : raised (tr1 ++ tr2) = raised tr1 ++ raised tr2.
Proof. apply omap_app. Qed.

Lemma called_app tr1 tr2 : called (tr1 ++ tr2) = called tr1 ++ called tr2.
Proof. apply omap_app. Qed.

Lemma succeeded_no_commands tr : commands tr = [] → succeeded tr = [].
Proof.
  induction tr as [|[f args a|line] tr IH]; cbn; [done| |done].
  destruct (command_of f args); [done|]. destruct a; auto.
Qed.

Ltac new_trace_app :=
  cbn [log euid rights];
  eexists; split;
    [rewrite <- ?app_assoc; first [reflexivity | symmetry; apply app_nil_r]|].

Ltac read_trace :=
  rewrite ?commands_app, ?succeeded_app, ?memberships_app, ?raised_app,
          ?called_app, ?last_app;
  cbn -[String.append join].


(** ** The stage functions, one by one *)

(** X1.  [build_computer_name]: with the same prefix, two machines get the
    same name exactly when they have the same serial number. *)
Lemma build_computer_name_injective prefix serial1 serial2 :
  build_computer_name prefix serial1 = build_computer_name prefix serial2
  ↔ serial1 = serial2.
Proof.
  unfold build_computer_name. split; [|by intros ->].
  induction prefix as [|c prefix IH]; simpl; intros H; by simplify_eq.
Qed.

(** X2.  [set_computer_name] makes its six SystemConfiguration calls in
    a fixed order and stops at the first one that raises.  An exception of
    [SCPreferencesCreate], which is written before the [try], leaves the
    function whatever its class; one of the other five calls is caught
    when it derives from [Exception], its text is printed and the function
    returns normally.  When nothing raised, all six calls were made. *)
Theorem set_computer_name_fail_stop mach computer_name st :
  let '(r, st') := set_computer_name mach computer_name st in
  ∃ tr', log st' = log st ++ tr' ∧
    called tr' `prefix_of` set_computer_name_calls ∧
    match raised tr' with
    | [] => r = Ok () ∧ called tr' = set_computer_name_calls
    | [(f, e)] =>
        if String.eqb f "SCPreferencesCreate" then r = Exc e
        else if isinstance_Exception e
             then r = Ok () ∧ last tr' = Some (Printed ("  ✖ " +:+ message e))
             else r = Exc e
    | _ => False
    end.
Proof.
  unfold_functions; repeat run_step mach.
  all: new_trace.
  all: split; [by eexists|].
  all: cbn -[String.append]; caught; done.
Qed.

(** X3.  [harden_ard] runs its four [kickstart] commands in the order of
    the script and stops at the first one that raises: an exception that
    derives from [Exception] is printed and the function returns normally,
    any other exception leaves it.  The line [ARD Access set to only
    allow ...] is the last one printed when all four commands returned. *)
Theorem harden_ard_fail_stop mach admin_list st :
  let '(r, st') := harden_ard mach admin_list st in
  ∃ tr', log st' = log st ++ tr' ∧
    commands tr' `prefix_of` ard_commands admin_list ∧
    match raised tr' with
    | [] => r = Ok () ∧ commands tr' = ard_commands admin_list ∧
            last tr' = Some (Printed ("  ○ ARD Access set to only allow "
                                      +:+ join "," admin_list))
    | [(_, e)] =>
        if isinstance_Exception e
        then r = Ok () ∧ last tr' = Some (Printed ("  ✖ " +:+ message e))
        else r = Exc e
    | _ => False
    end.
Proof.
  unfold_functions; repeat run_step mach.
  all: new_trace.
  all: split; [by eexists|].
  all: cbn -[String.append join]; caught; done.
Qed.

(** The loop of [harden_ssh] runs no command, and when it ends normally
    it has added the accounts of [admin_list], in order. *)
Lemma add_ssh_account_loop mach local_node local_ssh admin_list st :
  let '(r, st') :=
    for_each admin_list (add_ssh_account mach local_node local_ssh) st in
  ∃ tr, log st' = log st ++ tr ∧ euid st' = euid st ∧ rights st' = rights st ∧
    commands tr = [] ∧ (r = Ok () → memberships tr = FStr <$> admin_list).
Proof.
  revert st. induction admin_list as [|a al IH]; intros st.
  { cbn. exists []. by rewrite app_nil_r. }
  cbn [for_each]. unfold bind at 1.
  unfold add_ssh_account at 1. unfold_functions; repeat run_step mach.
  all: try (new_trace; cbn; repeat split; done).
  all: match goal with |- context [for_each ?l ?b ?s] =>
         specialize (IH s); destruct (for_each l b s) as [r st'] end.
  all: destruct IH as (tr & -> & -> & -> & Hc & Hm); new_trace_app.
  all: read_trace; rewrite Hc; repeat split; try done.
  all: intros Hr; by rewrite Hm.
Qed.

Lemma ssh_access_group_trace mach admin_list local_node st :
  let '(r, st') := ssh_access_group mach admin_list local_node st in
  ∃ tr, log st' = log st ++ tr ∧ euid st' = euid st ∧ rights st' = rights st ∧
    commands tr = [] ∧ (r = Ok () → memberships tr = FStr <$> admin_list).
Proof.
  unfold ssh_access_group. unfold_functions; repeat run_step mach.
  all: try (new_trace; cbn; repeat split; done).
  all: match goal with |- context [for_each ?l (add_ssh_account _ _ ?g) ?s] =>
         pose proof (add_ssh_account_loop mach local_node g l s) as IH;
         destruct (for_each l (add_ssh_account mach local_node g) s)
           as [[[]|?] st'] end.
  all: destruct IH as (tr & Hl & He & Hr & Hc & Hm).
  all: repeat run_step mach.
  all: rewrite ?Hl, ?He, ?Hr; new_trace_app.
  all: read_trace; rewrite ?Hc; repeat split; try done.
  all: intros _; rewrite Hm by done; by rewrite app_nil_r.
Qed.

(** X4.  [harden_ssh] never lets an exception that derives from
    [Exception] out, and the only commands it runs are [systemsetup -f
    -setremotelogin off] and, after it, [... on].  When the first command
    raised, nothing else was done.  When only the first command returned,
    remote login is left off and a function that returns has printed an
    error line last.  When both returned, the function returns normally,
    the members added to [com.apple.access_ssh] are exactly the accounts
    of [admin_list], in order, and the line printed last names the keys of
    [admins_to_prepare]. *)
Theorem harden_ssh_login_state mach admin_list admins_to_prepare local_node st :
  let '(r, st') := harden_ssh mach admin_list admins_to_prepare local_node st in
  ∃ tr', log st' = log st ++ tr' ∧
    contained r ∧
    commands tr' `prefix_of` [remote_login "off"; remote_login "on"] ∧
    match succeeded tr' with
    | [] => commands tr' = [remote_login "off"] ∧ memberships tr' = []
    | [cmd] => cmd = remote_login "off" ∧
               (r = Ok () → ∃ text, last tr' = Some (Printed ("  ✖ " +:+ text)))
    | _ => r = Ok () ∧ memberships tr' = FStr <$> admin_list ∧
           last tr' = Some (Printed ("  ○ SSH Access set to only allow "
                                     +:+ join "," admins_to_prepare.*1))
    end.
Proof.
  unfold harden_ssh, try_except, bind at 1 2 3, check_output at 1, extcall at 1.
  cbn -[String.append join ssh_access_group remote_login].
  destruct (mach _ _ _) as [v|e].
  2: { unfold print; destruct (isinstance_Exception e) eqn:He; new_trace;
       (split; [cbn; rewrite ?He; done|]); (split; [by eexists|]); done. }
  match goal with |- context [ssh_access_group _ ?l ?n ?s] =>
    pose proof (ssh_access_group_trace mach l n s) as H;
    destruct (ssh_access_group mach l n s) as [[[]|e] st1] end.
  all: destruct H as (tr & Hl & He & Hr & Hc & Hm).
  all: pose proof (succeeded_no_commands _ Hc) as Hs.
  all: unfold check_output, extcall, print, bind;
       cbn -[String.append join remote_login].
  all: repeat run_step mach.
  all: rewrite ?Hl, ?He, ?Hr; new_trace_app.
  all: (split; [cbn; rewrite ?Heqb; done|]).
  all: read_trace; rewrite ?Hc, ?Hs; cbn -[String.append join].
  all: (split; [by eexists|]).
  all: try (rewrite Hm by done; rewrite app_nil_r); try done; eauto.
  all: split; [done|]; try done; eauto.
Qed.

(** Membership in a list of literals. *)
Ltac in_list :=
  repeat first [apply list_elem_of_here | apply list_elem_of_further].

(** X5.  [settings_setup]: the two [try] blocks are independent.  No
    exception that derives from [Exception] leaves the function; whenever
    it returns, the block that writes the LaunchDaemon was entered
    ([writePlist] under Python 2, [open] otherwise), whatever happened to
    the time server; a file that was opened is closed, also when
    [plist_dump] raised; and when no call raised the function printed its
    heading and the two lines of success. *)
Theorem settings_setup_blocks mach version_major computer_name st :
  let '(r, st') := settings_setup mach version_major computer_name st in
  ∃ tr', log st' = log st ++ tr' ∧
    contained r ∧
    (r = Ok () →
       (if version_major =? 2 then "writePlist" else "open") ∈ called tr') ∧
    (returned_by "open" tr' ≠ [] → "close" ∈ called tr') ∧
    (raised tr' = [] →
       r = Ok () ∧
       printed tr' =
         ["• Settings Setup for Time Server and Set Computer Name LaunchDaemon";
          "  ○ Network Time Server set to clock.psu.edu";
          "  ○ Set Computer Name on Boot LaunchDaemon Created"]).
Proof.
  unfold_functions; repeat run_step mach.
  all: new_trace.
  all: (split; [cbn; caught; done|]).
  all: cbn -[String.append]; rewrite ?Heqb.
  all: (split; [try done; intros _; in_list|]).
  all: (split; [try done; intros _; in_list|]).
  all: done.
Qed.

(** What [decode] returns, read backwards. *)
Lemma decode_Ok v text :
  decode v = Ok text → v = FStr text ∧ valid_utf8 text = true.
Proof.
  destruct v as [| | |s| | |]; try done. cbn.
  destruct (valid_utf8 s) eqn:Hs; [|done]. by intros [= <-].
Qed.

Lemma decode_Exc v e :
  decode v = Exc e →
  match v with
  | FStr s => valid_utf8 s = false ∧ class_name e = "UnicodeDecodeError"
  | _ => class_name e = "TypeError"
  end.
Proof.
  destruct v as [| | |s| | |]; cbn; try (by intros [= <-]).
  destruct (valid_utf8 s); [done|]. by intros [= <-].
Qed.

(** X6.  [create_munki_manifest]: what is done is decided by the bytes
    the GET request returned.  When they are well-formed UTF-8: with
    [production] in the text, or with neither [production] nor [failed] in
    it, the GET is the only command and the function returns; with [failed]
    and without [production], the second and last command is the POST,
    which carries what [json_dumps] returned.  When they are not
    well-formed UTF-8, the [UnicodeDecodeError] of [str(get_request,
    'utf-8')] leaves the function after the GET and no POST is made.
    Nothing is caught: when the GET raised, or returned what is no bytes,
    the exception leaves the function and no POST is made. *)
Theorem create_munki_manifest_posts mach mwa_address basic_auth_string_mwa
    computer_name st :
  let url := manifest_url mwa_address computer_name in
  let get := manifest_get basic_auth_string_mwa url in
  let '(r, st') :=
    create_munki_manifest mach mwa_address basic_auth_string_mwa computer_name st in
  ∃ tr', log st' = log st ++ tr' ∧
    match head (returned_by "check_output" tr') with
    | Some (FStr text) =>
        if valid_utf8 text
        then
          if contains "production" text
          then r = Ok () ∧ commands tr' = [get] ∧
               last tr' = Some (Printed "  ○ A manifest was already found for this machine")
          else if contains "failed" text
          then ∃ data, returned_by "json_dumps" tr' = [data] ∧
                 commands tr' = [get; manifest_post basic_auth_string_mwa url data] ∧
                 (r = Ok () →
                  last tr' = Some (Printed ("  ○ Manifest created for " +:+ computer_name)))
          else r = Ok () ∧ commands tr' = [get] ∧
               last tr' = Some (Printed "  ○ No modifications where made")
        else commands tr' = [get] ∧
             ∃ e, r = Exc e ∧ class_name e = "UnicodeDecodeError"
    | Some _ => commands tr' = [get] ∧ ∃ e, r = Exc e ∧ class_name e = "TypeError"
    | None => commands tr' `prefix_of` [get] ∧ ∃ e, r = Exc e
    end.
Proof.
  intros url get; subst url get.
  unfold_functions; repeat run_step mach.
  all: new_trace; cbn -[String.append contains manifest_url valid_utf8].
  all: try (split; [by eexists|by eexists]).
  all: match goal with
       | H : decode _ = Ok _ |- _ => apply decode_Ok in H as [-> Hvalid]
       | H : decode ?v = Exc _ |- _ =>
           apply decode_Exc in H; destruct v;
           match type of H with
           | _ ∧ _ => destruct H as [Hvalid H]
           | _ => idtac
           end
       end.
  all: rewrite ?Hvalid;
       repeat match goal with H : contains _ _ = _ |- _ => rewrite H end.
  all: try (eexists; repeat split; done); eauto.
Qed.

(** X7.  [location_services] leaves the authorization database alone, and
    the effective user id it ends with is told by the [seteuid] calls that
    returned: none, and it is the one the function started with; one, and
    it is the uid [getpwnam] returned for [_locationd], never set back;
    two, and it is 0.  An exception of [locationServicesEnabled] leaves
    the function; one of a later call is caught when it derives from
    [Exception] and the line [Failed to enable Location Services] is
    printed last.  When the status is anything but [False], no other call
    is made. *)
Theorem location_services_euid mach st :
  let '(r, st') := location_services mach st in
  ∃ tr', log st' = log st ++ tr' ∧ rights st' = rights st ∧
    match returned_by "seteuid" tr' with
    | [] => euid st' = euid st
    | [_] => returned_by "getpwnam" tr' = [euid st']
    | _ => euid st' = FInt 0
    end ∧
    match raised tr' with
    | [] => r = Ok ()
    | [(f, e)] =>
        if String.eqb f "locationServicesEnabled" then r = Exc e
        else if isinstance_Exception e
        then r = Ok () ∧
             last tr' = Some (Printed "   - Failed to enable Location Services. Please see error listed above")
        else r = Exc e
    | _ => False
    end ∧
    (head (returned_by "locationServicesEnabled" tr') ≠ Some (FBool false) →
     called tr' = ["locationServicesEnabled"]).
Proof.
  unfold_functions; repeat run_step mach.
  all: new_trace; cbn -[String.append]; caught.
  all: repeat split; try done.
  all: by destruct v as [|[]| | | | |].
Qed.

(** X9.  [autotimezone]: whatever the two [remove] calls raise (their
    [except:] has no class), the third call is [getpwnam]; no exception
    that derives from [Exception] leaves the function; the effective user
    id at the end is told by the [seteuid] calls that returned, as for
    [location_services]; and a function that returns has printed
    [Completed] last, with the effective user id back to 0, or the line of
    failure. *)
Theorem autotimezone_euid mach st :
  let '(r, st') := autotimezone mach st in
  ∃ tr', log st' = log st ++ tr' ∧ rights st' = rights st ∧
    contained r ∧
    take 3 (called tr') = ["remove"; "remove"; "getpwnam"] ∧
    match returned_by "seteuid" tr' with
    | [] => euid st' = euid st
    | [_] => returned_by "getpwnam" tr' = [euid st']
    | _ => euid st' = FInt 0
    end ∧
    (r = Ok () →
     last tr' = Some (Printed "  ✓ Completed") ∧ euid st' = FInt 0 ∨
     last tr' = Some (Printed "   - Failed to enable automatic time and time zone. Please see error listed above.")).
Proof.
  unfold_functions; repeat run_step mach.
  all: new_trace; cbn -[String.append]; caught.
  all: repeat split; try done.
  all: intros _; (by left) || (by right).
Qed.

(** X10.  [munki_download_and_install] catches nothing: the exception of
    the first call that raises is the result.  Its commands are the GET,
    then the download of [munki_url_data['assets'][0]['browser_download_url']],
    the installer and the bootstrap, in this order, each run only when the
    one before returned; when the data has no such URL, the GET is the only
    command and the [KeyError], [IndexError] or [TypeError] of the lookup
    is the result.  The function returns normally exactly when the four
    commands returned. *)
Theorem munki_download_and_install_order mach st :
  let '(r, st') := munki_download_and_install mach st in
  ∃ tr', log st' = log st ++ tr' ∧ euid st' = euid st ∧ rights st' = rights st ∧
    match raised tr' with
    | [] => True
    | [(_, e)] => r = Exc e
    | _ => False
    end ∧
    match returned_by "json_loads" tr' with
    | [data] =>
        match download_url data with
        | Ok url =>
            commands tr' `prefix_of`
              [munki_get; munki_download url; munki_install; munki_bootstrap] ∧
            (r = Ok () ↔ length (succeeded tr') = 4)
        | Exc e => r = Exc e ∧ commands tr' = [munki_get]
        end
    | _ => commands tr' `prefix_of` [munki_get] ∧ ∃ e, r = Exc e
    end.
Proof.
  unfold_functions; repeat run_step mach.
  all: new_trace; cbn -[String.append download_url].
  all: repeat match goal with H : download_url _ = _ |- _ => rewrite H end.
  all: repeat split; try done; try (by eexists).
Qed.

(** X8.  [location_services] on a machine where location services are
    off and [CFPreferencesSetValue] raises an exception that derives from
    [Exception]: the function reports the failure and returns normally, and
    the process keeps the effective user id of [_locationd]; [seteuid(0)]
    is skipped. *)
Theorem location_services_stays_locationd mach st uid e :
  (∀ h, mach h "locationServicesEnabled" [] = Returned (FBool false)) →
  (∀ h, mach h "getpwnam" [FStr "_locationd"] = Returned uid) →
  (∀ h, ∃ v, mach h "seteuid" [uid] = Returned v) →
  (∀ h args, mach h "CFPreferencesSetValue" args = Raised e) →
  isinstance_Exception e = true →
  ∃ st', location_services mach st = (Ok (), st') ∧
         euid st' = uid ∧
         last (log st') =
           Some (Printed "   - Failed to enable Location Services. Please see error listed above").
Proof.
  intros H1 H2 H3 H4 H5.
  unfold_functions. rewrite H1. cbn -[String.append]. rewrite H2.
  cbn -[String.append].
  match goal with |- context [mach ?h "seteuid" ?a] =>
    destruct (H3 h) as [v Hv]; rewrite Hv end.
  cbn -[String.append]. rewrite H4. cbn -[String.append]. rewrite H5.
  eexists. split; [reflexivity|]. cbn [euid log]. split; [done|].
  by rewrite last_snoc.
Qed.

Lemma location_services_stays_locationd_witness :
  ∃ st', location_services locationd_refuses (MState [] (FInt 0) ∅) = (Ok (), st') ∧
         euid st' = FInt 205 ∧
         last (log st') =
           Some (Printed "   - Failed to enable Location Services. Please see error listed above").
Proof.
  apply (location_services_stays_locationd locationd_refuses (MState [] (FInt 0) ∅)
           (FInt 205) (Exn "RuntimeError" "preferences are read-only")).
  - intros h. reflexivity.
  - intros h. reflexivity.
  - intros h. eexists. reflexivity.
  - intros h args. reflexivity.
  - reflexivity.
Defined.

Lemma admin_item_unknown admins_to_prepare account key :
  assoc account admins_to_prepare = None →
  ∃ e, admin_item admins_to_prepare account key = Exc e.
Proof. unfold admin_item, subscript. intros ->. by eexists. Qed.

(** One iteration of [beautify_admin_accounts]. *)
Lemma beautify_account_trace mach admins_to_prepare local_node account st :
  let '(r, st') := beautify_account mach admins_to_prepare local_node account st in
  ∃ tr, log st' = log st ++ tr ∧ euid st' = euid st ∧ rights st' = rights st ∧
    called tr `prefix_of` account_calls ∧
    length (commands tr) ≤ 1 ∧
    match r with
    | Ok _ => called tr = account_calls ∧ raised tr = [] ∧
              assoc account admins_to_prepare ≠ None
    | Exc _ => assoc account admins_to_prepare = None → commands tr = []
    end.
Proof.
  unfold beautify_account.
  destruct (assoc account admins_to_prepare) eqn:Hassoc.
  2: { destruct (admin_item_unknown admins_to_prepare account "picture_address")
         as [e He]; [done|].
       unfold_functions; repeat run_step mach; rewrite ?He.
       all: new_trace; cbn; repeat split; try done; try lia; by eexists. }
  unfold_functions.
  repeat first
    [ progress cbn -[insert delete lookup String.append join contains fmap map
                     getattr subscript first_item decode download_url admin_item]
    | match goal with
      | |- context [mach ?h ?f ?a] => destruct (mach h f a)
      | |- context [getattr ?v ?f] => destruct (getattr v f) as [[]|?]
      | |- context [admin_item ?v ?a ?k] => destruct (admin_item v a k)
      end ].
  all: new_trace; cbn; repeat split; try done; try lia; by eexists.
Qed.

Lemma beautify_loop mach admins_to_prepare local_node admin_list st :
  let '(r, st') :=
    for_each admin_list (beautify_account mach admins_to_prepare local_node) st in
  ∃ tr, log st' = log st ++ tr ∧ euid st' = euid st ∧ rights st' = rights st ∧
    called tr `prefix_of` mjoin (replicate (length admin_list) account_calls) ∧
    (r = Ok () →
     called tr = mjoin (replicate (length admin_list) account_calls) ∧
     raised tr = []).
Proof.
  revert st. induction admin_list as [|a al IH]; intros st.
  { cbn. exists []. by rewrite app_nil_r. }
  cbn [for_each]. unfold bind at 1.
  pose proof (beautify_account_trace mach admins_to_prepare local_node a st) as Ha.
  destruct (beautify_account mach admins_to_prepare local_node a st) as [[[]|e] st1].
  - destruct Ha as (tr1 & Hl1 & He1 & Hr1 & Hp1 & _ & Hc1 & Hx1 & _).
    specialize (IH st1).
    destruct (for_each al _ st1) as [r st2].
    destruct IH as (tr2 & Hl2 & He2 & Hr2 & Hp2 & Hok).
    exists (tr1 ++ tr2). rewrite Hl2, Hl1, He2, He1, Hr2, Hr1, app_assoc.
    repeat split; try done.
    + rewrite called_app, Hc1. cbn [length replicate mjoin list_join].
      by apply prefix_app.
    + rewrite called_app, Hc1. cbn [length replicate mjoin list_join].
      by destruct (Hok H) as [-> _].
    + rewrite raised_app, Hx1. by destruct (Hok H) as [_ ->].
  - destruct Ha as (tr1 & Hl1 & He1 & Hr1 & Hp1 & _).
    exists tr1. repeat split; try done.
    cbn [length replicate mjoin list_join]. by apply prefix_app_r.
Qed.

(** X11.  [beautify_admin_accounts] changes neither the effective user
    id nor the authorization database, and catches nothing.  Its calls
    are, account after account, the lookup of the record, the download of
    the picture, three [setValue_forAttribute_error_], the read of the
    picture and a fourth [setValue_forAttribute_error_]: the calls made are
    an initial part of this sequence, and all of it, with no call that
    raised, when the function returns. *)
Theorem beautify_admin_accounts_order mach admin_list admins_to_prepare
    local_node st :
  let '(r, st') :=
    beautify_admin_accounts mach admin_list admins_to_prepare local_node st in
  ∃ tr', log st' = log st ++ tr' ∧ euid st' = euid st ∧ rights st' = rights st ∧
    called tr' `prefix_of` mjoin (replicate (length admin_list) account_calls) ∧
    (r = Ok () →
     called tr' = mjoin (replicate (length admin_list) account_calls) ∧
     raised tr' = []).
Proof.
  unfold beautify_admin_accounts, bind, print.
  match goal with |- context [for_each ?l ?b ?s] =>
    pose proof (beautify_loop mach admins_to_prepare local_node l s) as H;
    destruct (for_each l b s) as [r st'] end.
  destruct H as (tr & Hl & He & Hr & Hp & Hok).
  exists (Printed "• Beautify Admin Accounts" :: tr).
  rewrite Hl, He, Hr. cbn [log euid rights].
  rewrite <- app_assoc. by destruct r as [[]|].
Qed.

(** X12.  [beautify_admin_accounts] on an account of [admin_list] that is
    no key of [admins_to_prepare]: the function always ends with an
    exception, the accounts listed after it are never reached, and no
    picture is downloaded for it (at most one command was run for each
    account listed before it). *)
Theorem beautify_admin_accounts_unknown_account mach pre account post
    admins_to_prepare local_node st :
  assoc account admins_to_prepare = None →
  ∃ e st' tr',
    beautify_admin_accounts mach (pre ++ account :: post) admins_to_prepare
                            local_node st = (Exc e, st') ∧
    log st' = log st ++ tr' ∧
    length (commands tr') ≤ length pre.
Proof.
  intros Hnone.
  assert (∀ s, ∃ e st' tr,
    for_each (pre ++ account :: post)
      (beautify_account mach admins_to_prepare local_node) s = (Exc e, st') ∧
    log st' = log s ++ tr ∧ length (commands tr) ≤ length pre) as Hloop.
  { induction pre as [|a pre IH]; intros s; cbn [app for_each]; unfold bind at 1.
    - pose proof (beautify_account_trace mach admins_to_prepare local_node account s) as Ha.
      destruct (beautify_account _ _ _ _ s) as [[[]|e] s1].
      + by destruct Ha as (tr & _ & _ & _ & _ & _ & _ & _ & Hsome).
      + destruct Ha as (tr & Hl & _ & _ & _ & _ & Hc).
        exists e, s1, tr. by rewrite (Hc Hnone).
    - pose proof (beautify_account_trace mach admins_to_prepare local_node a s) as Ha.
      destruct (beautify_account _ _ _ _ s) as [[[]|e] s1].
      + destruct Ha as (tr1 & Hl1 & _ & _ & _ & Hn1 & _).
        destruct (IH s1) as (e & st' & tr & -> & Hl & Hn).
        exists e, st', (tr1 ++ tr). rewrite Hl, Hl1, app_assoc, commands_app, length_app.
        cbn [length]. repeat split; try done; lia.
      + destruct Ha as (tr1 & Hl1 & _ & _ & _ & Hn1 & _).
        exists e, s1, tr1. cbn [length]. repeat split; try done; lia. }
  unfold beautify_admin_accounts, bind, print.
  match goal with |- context [for_each _ _ ?s] =>
    destruct (Hloop s) as (e & st' & tr & -> & Hl & Hn) end.
  exists e, st', (Printed "• Beautify Admin Accounts" :: tr).
  rewrite Hl. cbn [log]. rewrite <- app_assoc. done.
Qed.

(** *** [power_prefs] *)

Lemma beautify_admin_accounts_unknown_account_witness :
  ∃ e st' tr',
    beautify_admin_accounts obliging (["admin1"] ++ "admin3" :: ["admin2"])
                            admins_to_prepare (FObj "node") (MState [] (FInt 0) ∅)
      = (Exc e, st') ∧
    log st' = log (MState [] (FInt 0) ∅) ++ tr' ∧
    length (commands tr') ≤ length ["admin1"].
Proof.
  apply (beautify_admin_accounts_unknown_account obliging ["admin1"] "admin3"
           ["admin2"] admins_to_prepare (FObj "node") (MState [] (FInt 0) ∅)).
  reflexivity.
Defined.

Lemma unlocked_pane_unlocked right rule : pane_unlocked right (unlocked right rule).
Proof.
  unfold pane_unlocked, unlocked.
  destruct (String.eqb _ _); eexists; (split; [apply lookup_insert_eq|done]).
Qed.

Lemma unlocked_idemp right rule :
  unlocked right (unlocked right rule) = unlocked right rule.
Proof. unfold unlocked. destruct (String.eqb _ _); apply insert_insert_eq. Qed.

Lemma only_unlocks_refl prefs st : only_unlocks prefs st st.
Proof. intros right. by left. Qed.

Lemma only_unlocks_same prefs st st' :
  rights st' = rights st → only_unlocks prefs st st'.
Proof. intros E right. left. by rewrite E. Qed.

Lemma only_unlocks_trans p prefs st st1 st2 :
  only_unlocks [p] st st1 → only_unlocks prefs st1 st2 →
  only_unlocks (p :: prefs) st st2.
Proof.
  intros H1 H2 right.
  destruct (H1 right) as [E1|[Hin1 E1]], (H2 right) as [E2|[Hin2 E2]].
  - left. congruence.
  - right. split; [by apply list_elem_of_further|]. congruence.
  - right. split; [|congruence].
    apply list_elem_of_singleton in Hin1 as ->. apply list_elem_of_here.
  - right. split; [by apply list_elem_of_further|].
    rewrite E2, E1. destruct (rights st !! right); cbn; [|done].
    by rewrite unlocked_idemp.
Qed.

Lemma authorization_right_set_writes mach right value st :
  let '(r, st') := authorization_right_set mach right value st in
  euid st' = euid st ∧
  (rights st' = rights st ∨ rights st' = <[right := value]> (rights st)) ∧
  ∃ tr, log st' = log st ++ tr.
Proof.
  unfold authorization_right_set, extcall, lift, bind; cbn -[insert].
  destruct (mach _ _ _); cbn -[insert]; [|by eauto].
  destruct (encode_ascii right) as [[]|]; cbn -[insert]; [|by eauto].
  destruct (mach _ _ _) as [status|]; cbn -[insert].
  - destruct status as [| |[]| | | |]; cbn -[insert];
      rewrite <- app_assoc; eauto 6.
  - rewrite <- app_assoc; eauto 6.
Qed.

Lemma write_unlocks mach preference rule st0 st :
  rights st = rights st0 →
  rights st0 !! preference = Some rule →
  let '(r, st') :=
    authorization_right_set mach preference (unlocked preference rule) st in
  euid st' = euid st ∧ only_unlocks [preference] st0 st' ∧
  ∃ tr, log st' = log st ++ tr.
Proof.
  intros Hr Hrule.
  pose proof (authorization_right_set_writes mach preference
                (unlocked preference rule) st) as H.
  destruct (authorization_right_set _ _ _ st) as [r st'].
  destruct H as (He & Hw & Hl). repeat split; [done| |done].
  intros right. destruct Hw as [->| ->]; rewrite Hr; [by left|].
  destruct (decide (right = preference)) as [->|Hne].
  - right. rewrite lookup_insert_eq, Hrule. split; [apply list_elem_of_here|done].
  - left. by rewrite lookup_insert_ne.
Qed.

Lemma print_pane_log preference st :
  ∃ tr, print_pane preference st
        = (Ok (), MState (log st ++ tr) (euid st) (rights st)).
Proof.
  unfold print_pane, print, ret.
  repeat (destruct (String.eqb preference _); [by eexists|]).
  exists []. rewrite app_nil_r. by destruct st.
Qed.

Ltac settle :=
  cbn [log euid rights] in *;
  repeat split;
  first [ done
        | by apply only_unlocks_same
        | by eauto
        | rewrite <- ?app_assoc; by eexists
        | exists []; by rewrite app_nil_r ].

Lemma unlock_pane_frame mach preference st :
  let '(r, st') := unlock_pane mach preference st in
  euid st' = euid st ∧
  only_unlocks [preference] st st' ∧
  (r = Ok () → is_Some (rights st !! preference)) ∧
  ∃ tr, log st' = log st ++ tr.
Proof.
  unfold unlock_pane, authorization_right_get. unfold bind at 1 2, lift at 1.
  destruct (encode_ascii preference) as [[]|]; [|settle].
  destruct (String.eqb preference "system.preferences.datetime") eqn:Hdt.
  - unfold print, bind at 1, lift.
    destruct (rights st !! preference) as [rule|] eqn:Hrule;
      cbn -[insert String.eqb]; [|settle].
    destruct (rule !! "shared") as [shared|]; cbn -[insert String.eqb];
      [|settle].
    destruct (is_True shared); cbn -[insert String.eqb]; [settle|].
    unfold bind.
    match goal with |- context [authorization_right_set _ _ ?v ?s] =>
      pose proof (write_unlocks mach preference rule st s eq_refl Hrule) as H;
      replace (unlocked preference rule) with v in H
        by (unfold unlocked; by rewrite Hdt);
      destruct (authorization_right_set mach preference v s) as [[status|e] st1]
    end; cbn -[insert String.eqb] in *.
    all: destruct H as (He & Hu & tr & Hl); rewrite Hl; settle.
  - destruct (print_pane_log preference st) as [tr0 Hp].
    unfold bind at 1. rewrite Hp. unfold lift, bind at 1.
    destruct (rights st !! preference) as [rule|] eqn:Hrule;
      cbn -[insert String.eqb]; [|settle].
    destruct (rule !! "group") as [group|]; cbn -[insert String.eqb];
      [|settle].
    destruct (eq_str group "admin"); cbn -[insert String.eqb]; [|settle].
    unfold bind, print.
    match goal with |- context [authorization_right_set _ _ ?v ?s] =>
      pose proof (write_unlocks mach preference rule st s eq_refl Hrule) as H;
      replace (unlocked preference rule) with v in H
        by (unfold unlocked; by rewrite Hdt);
      destruct (authorization_right_set mach preference v s) as [[status|e] st1]
    end; cbn -[insert String.eqb] in *.
    all: destruct H as (He & Hu & tr & Hl); rewrite Hl; settle.
Qed.

Lemma only_unlocks_is_Some prefs st st' right :
  only_unlocks prefs st st' →
  is_Some (rights st' !! right) ↔ is_Some (rights st !! right).
Proof.
  intros H. destruct (H right) as [->|[_ ->]]; [done|].
  by rewrite fmap_is_Some.
Qed.

Lemma unlock_panes_frame mach macOS_version prefs st :
  let '(r, st') := unlock_panes mach macOS_version prefs st in
  euid st' = euid st ∧
  only_unlocks prefs st st' ∧
  (version_lt macOS_version (10, 10, 0) = false → r = Ok () →
   ∀ preference, preference ∈ prefs → is_Some (rights st !! preference)) ∧
  ∃ tr, log st' = log st ++ tr.
Proof.
  revert st. induction prefs as [|p prefs IH]; intros st; cbn [unlock_panes].
  { unfold ret. repeat split; [apply only_unlocks_refl| |exists []; by rewrite app_nil_r].
    intros _ _ preference Hin. by apply elem_of_nil in Hin. }
  destruct (version_lt macOS_version (10, 10, 0)) eqn:Hv.
  { unfold print. settle. }
  unfold bind.
  pose proof (unlock_pane_frame mach p st) as Hp.
  destruct (unlock_pane mach p st) as [[[]|e] st1].
  - destruct Hp as (He1 & Hu1 & Hs1 & tr1 & Hl1).
    specialize (IH st1). destruct (unlock_panes _ _ _ st1) as [r st2].
    destruct IH as (He2 & Hu2 & Hs2 & tr2 & Hl2).
    repeat split.
    + congruence.
    + by eapply only_unlocks_trans.
    + intros _ Hr preference [->|Hin]%elem_of_cons; [by apply Hs1|].
      apply (only_unlocks_is_Some _ _ _ _ Hu1). by apply Hs2.
    + exists (tr1 ++ tr2). by rewrite Hl2, Hl1, app_assoc.
  - destruct Hp as (He1 & Hu1 & Hs1 & tr1 & Hl1).
    repeat split; [done| | |by eexists].
    + intros right. destruct (Hu1 right) as [E|[Hin E]]; [by left|right].
      split; [|done]. apply list_elem_of_singleton in Hin as ->.
      apply list_elem_of_here.
    + done.
Qed.

(** X13.  [power_prefs] keeps the effective user id, and all it can do to
    the authorization database is unlock listed panes: every right keeps
    its rule, or is in [system_prefs_to_change] and has the rule it had
    with [shared] set to [True] (Date & Time) or [group] set to [everyone]
    (the other panes).  No right is created or removed. *)
Theorem power_prefs_only_unlocks mach macOS_version system_prefs_to_change st :
  let '(r, st') := power_prefs mach macOS_version system_prefs_to_change st in
  euid st' = euid st ∧
  only_unlocks system_prefs_to_change st st' ∧
  ∃ tr', log st' = log st ++ tr'.
Proof.
  unfold power_prefs, bind, print.
  match goal with |- context [unlock_panes _ _ _ ?s] =>
    pose proof (unlock_panes_frame mach macOS_version system_prefs_to_change s) as H;
    destruct (unlock_panes mach macOS_version system_prefs_to_change s) as [r st']
  end.
  destruct H as (He & Hu & _ & tr & Hl). rewrite Hl. settle.
Qed.

(** X14.  On macOS 10.10 or later, [power_prefs] returns normally only
    when the authorization database has every listed right:
    [authorization_right_get] returns [None] for a right that does not
    exist, and the subscript on it raises. *)
Theorem power_prefs_needs_rights mach macOS_version system_prefs_to_change st
    preference :
  version_lt macOS_version (10, 10, 0) = false →
  (power_prefs mach macOS_version system_prefs_to_change st).1 = Ok () →
  preference ∈ system_prefs_to_change →
  is_Some (rights st !! preference).
Proof.
  intros Hv Hr Hin. revert Hr. unfold power_prefs, bind, print.
  match goal with |- context [unlock_panes _ _ _ ?s] =>
    pose proof (unlock_panes_frame mach macOS_version system_prefs_to_change s) as H;
    destruct (unlock_panes mach macOS_version system_prefs_to_change s) as [r st']
  end.
  destruct H as (_ & _ & Hs & _). cbn [fst]. intros ->. by apply (Hs Hv eq_refl).
Qed.

(** X15.  Before macOS 10.10, [power_prefs] makes no call and changes
    nothing: it prints its heading and, when there is a pane to unlock,
    the line [This script will not function on 10.9.5 or below...] once,
    and returns. *)
Theorem power_prefs_too_old mach macOS_version system_prefs_to_change st :
  version_lt macOS_version (10, 10, 0) = true →
  power_prefs mach macOS_version system_prefs_to_change st
  = (Ok (),
     MState (log st ++
             Printed "• Unlock the following System Preference Panes:"
             :: match system_prefs_to_change with
                | [] => []
                | _ => [Printed "  ✖ This script will not function on 10.9.5 or below..."]
                end)
            (euid st) (rights st)).
Proof.
  intros Hv. unfold power_prefs, bind, print.
  destruct system_prefs_to_change; cbn [unlock_panes]; [done|].
  rewrite Hv. unfold print. cbn [log euid rights]. by rewrite <- app_assoc.
Qed.

Section Granted.
Context (mach : machine).
Hypothesis created : ∀ h, ∃ v, mach h "AuthorizationCreate" [] = Returned v.
Hypothesis granted :
  ∀ h right, mach h "AuthorizationRightSet" [FStr right] = Returned (FInt 0).

Lemma authorization_right_set_granted right value st :
  encode_ascii right = Ok () →
  ∃ st', authorization_right_set mach right value st = (Ok (FInt 0), st') ∧
         rights st' = <[right := value]> (rights st).
Proof.
  intros Henc.
  unfold authorization_right_set, extcall, lift, bind; cbn -[insert].
  destruct (created (log st)) as [v ->]. cbn -[insert].
  rewrite Henc, granted. cbn -[insert]. by eexists.
Qed.

Lemma unlock_pane_unlocks preference st :
  let '(r, st') := unlock_pane mach preference st in
  r = Ok () →
  ∃ rule, rights st' !! preference = Some rule ∧ pane_unlocked preference rule.
Proof.
  unfold unlock_pane, authorization_right_get. unfold bind at 1 2, lift at 1.
  unfold pane_unlocked.
  destruct (encode_ascii preference) as [[]|] eqn:Henc; [|done].
  destruct (String.eqb preference "system.preferences.datetime") eqn:Hdt.
  - unfold print, bind at 1, lift.
    destruct (rights st !! preference) as [rule|] eqn:Hrule;
      cbn -[insert String.eqb]; [|done].
    destruct (rule !! "shared") as [shared|] eqn:Hshared;
      cbn -[insert String.eqb]; [|done].
    destruct (is_True shared) eqn:Htrue; cbn -[insert String.eqb]; [by eauto|].
    unfold bind.
    match goal with |- context [authorization_right_set _ _ ?v ?s] =>
      destruct (authorization_right_set_granted preference v s Henc)
        as (st1 & -> & Hr)
    end.
    cbn -[insert String.eqb] in *. rewrite Hr, lookup_insert_eq. intros _.
    eexists; split; [done|]. rewrite lookup_insert_eq. by eexists.
  - destruct (print_pane_log preference st) as [tr0 Hp].
    unfold bind at 1. rewrite Hp. unfold lift, bind at 1.
    destruct (rights st !! preference) as [rule|] eqn:Hrule;
      cbn -[insert String.eqb]; [|done].
    destruct (rule !! "group") as [group|] eqn:Hgroup;
      cbn -[insert String.eqb]; [|done].
    destruct (eq_str group "admin") eqn:Hadmin; cbn -[insert String.eqb];
      [|by eauto].
    unfold bind, print.
    match goal with |- context [authorization_right_set _ _ ?v ?s] =>
      destruct (authorization_right_set_granted preference v s Henc)
        as (st1 & -> & Hr)
    end.
    cbn -[insert String.eqb] in *. rewrite Hr, lookup_insert_eq. intros _.
    eexists; split; [done|]. rewrite lookup_insert_eq. by eexists.
Qed.

Lemma unlock_panes_unlocks macOS_version prefs st :
  let '(r, st') := unlock_panes mach macOS_version prefs st in
  version_lt macOS_version (10, 10, 0) = false → r = Ok () →
  ∀ preference, preference ∈ prefs →
    ∃ rule, rights st' !! preference = Some rule ∧ pane_unlocked preference rule.
Proof.
  revert st. induction prefs as [|p prefs IH]; intros st; cbn [unlock_panes].
  { intros _ _ preference Hin. by apply elem_of_nil in Hin. }
  destruct (version_lt macOS_version (10, 10, 0)) eqn:Hv; [done|].
  unfold bind.
  pose proof (unlock_pane_unlocks p st) as Hp.
  destruct (unlock_pane mach p st) as [[[]|e] st1]; [|done].
  specialize (IH st1).
  pose proof (unlock_panes_frame mach macOS_version prefs st1) as Hf.
  destruct (unlock_panes _ _ _ st1) as [r st2].
  intros _ Hr preference [->|Hin]%elem_of_cons; [|by apply IH].
  destruct (Hp eq_refl) as (rule & Hrule & Hu).
  destruct Hf as (_ & Hf & _). destruct (Hf p) as [->|[_ ->]]; [by eauto|].
  rewrite Hrule. eexists; split; [done|]. apply unlocked_pane_unlocked.
Qed.

(** X16.  On macOS 10.10 or later and when [AuthorizationRightSet] grants
    every request (status 0), a run of [power_prefs] that returns normally
    leaves every listed pane unlocked: [shared] is [True] for Date & Time,
    and the group of any other pane is not [admin]. *)
Theorem power_prefs_unlocks macOS_version system_prefs_to_change st preference :
  version_lt macOS_version (10, 10, 0) = false →
  (power_prefs mach macOS_version system_prefs_to_change st).1 = Ok () →
  preference ∈ system_prefs_to_change →
  ∃ rule,
    rights (power_prefs mach macOS_version system_prefs_to_change st).2
      !! preference = Some rule ∧
    pane_unlocked preference rule.
Proof.
  intros Hv. unfold power_prefs, bind, print.
  match goal with |- context [unlock_panes _ _ _ ?s] =>
    pose proof (unlock_panes_unlocks macOS_version system_prefs_to_change s) as H;
    destruct (unlock_panes mach macOS_version system_prefs_to_change s) as [r st']
  end.
  cbn [fst snd]. intros -> Hin. by apply H.
Qed.

End Granted.

Lemma power_prefs_needs_rights_witness :
  is_Some (rights (MState [] (FInt 0) locked) !! "system.preferences.network").
Proof.
  apply (power_prefs_needs_rights obliging (10, 15, 6)%nat panes
           (MState [] (FInt 0) locked) "system.preferences.network").
  - reflexivity.
  - vm_compute. reflexivity.
  - unfold panes. in_list.
Defined.

Lemma power_prefs_too_old_witness :
  power_prefs obliging (10, 9, 5)%nat panes (MState [] (FInt 0) locked)
  = (Ok (),
     MState [Printed "• Unlock the following System Preference Panes:";
             Printed "  ✖ This script will not function on 10.9.5 or below..."]
            (FInt 0) locked).
Proof.
  apply (power_prefs_too_old obliging (10, 9, 5)%nat panes (MState [] (FInt 0) locked)).
  reflexivity.
Defined.

Lemma power_prefs_unlocks_witness :
  ∃ rule,
    rights (power_prefs obliging (10, 15, 6)%nat panes (MState [] (FInt 0) locked)).2
      !! "system.preferences.datetime" = Some rule ∧
    pane_unlocked "system.preferences.datetime" rule.
Proof.
  apply (power_prefs_unlocks obliging).
  - intros h. eexists. reflexivity.
  - intros h right. reflexivity.
  - reflexivity.
  - vm_compute. reflexivity.
  - unfold panes. in_list.
Defined.

End FunctionFacts.
